(** * libcw_debug: from a libcw debug log to a plottable table

    A shallow embedding of [src/libcw/libcw_debug.py] (unixcw 3.5.1) and the
    properties of its event table and of the table it prints.

    The script reads a log line by line, keeps the lines of the form
    [libcwevent:<TAB>digits<TAB>token], stores two samples per event in one
    dictionary keyed by time, and then prints the dictionary in ascending
    order of time with one column per category of event.

    Conventions of the model:
    - the input is the list of lines that [for line in f] yields (each line
      still carries its newline, as in Python);
    - the module-level variables of the script are the fields of [globals];
      standard output is the text written so far, the error stream is the
      list of the lines written to it;
    - both passes can raise: the reading loop [ValueError], where [int]
      refuses a run of more than 4300 digits, the printing pass [KeyError]
      (and [ValueError] for a time of more than 4300 digits, which the
      reading loop never files); they live in the small monad [M], which
      keeps the state and the text already written when an exception
      escapes;
    - the limit of 4300 digits is the interpreter's default for conversions
      between [int] and [str] (Python 3.11 and the security releases before
      it); opening the file named on the command line and the traceback of
      an uncaught exception are not modelled. *)

From stdpp Require Import base strings gmap list sorting.
From Stdlib Require Import Ascii ZArith DecimalString.
From Stdlib Require DecimalPos DecimalFacts.

Local Open Scope Z_scope.

(** ** Characters and text *)

Definition TAB : ascii := "009"%char.
Definition NL : ascii := "010"%char.
Definition tab : string := String TAB "".
Definition nl : string := String NL "".

(** [[0-9]] of a [str] pattern: the ten ASCII digits. *)
Definition is_digit (c : ascii) : bool :=
  ((48 <=? nat_of_ascii c) && (nat_of_ascii c <=? 57))%nat.

(** [.] without DOTALL: every character but the newline. *)
Definition is_dot (c : ascii) : bool := negb (Ascii.eqb c NL).

(** The longest prefix of [s] whose characters satisfy [f], and what is left:
    a greedy [[...]*]. *)
Fixpoint span (f : ascii → bool) (s : string) : string * string :=
  match s with
  | String c s' =>
      if f c then let '(a, b) := span f s' in (String c a, b) else ("", s)
  | EmptyString => ("", "")
  end.

(** [strip_prefix p s] is what follows the literal [p] at the start of [s]. *)
Fixpoint strip_prefix (p s : string) : option string :=
  match p, s with
  | EmptyString, _ => Some s
  | String a p', String b s' =>
      if Ascii.eqb a b then strip_prefix p' s' else None
  | String _ _, EmptyString => None
  end.

(** [re.match(p, s)] for a pattern [p] without metacharacters, used as a
    truth value: [s] starts with [p]. *)
Definition re_match (p s : string) : bool := String.prefix p s.

(** [re.match("^libcwevent:\t([0-9]+)\t(.+)", line)]: groups 1 and 2 of the
    match, if any.  Both repetitions are greedy and neither can give back a
    character to let the rest match (a digit is not a tab, and nothing
    follows [(.+)]), so the match is the longest run each time. *)
Definition line_re (line : string) : option (string * string) :=
  match strip_prefix ("libcwevent:" +:+ tab) line with
  | None => None
  | Some r =>
      match span is_digit r with
      | (EmptyString, _) => None
      | (digits, String c r') =>
          if Ascii.eqb c TAB then
            match span is_dot r' with
            | (EmptyString, _) => None
            | (token, _) => Some (digits, token)
            end
          else None
      | (_, EmptyString) => None
      end
  end.

(** The value of a string of ASCII digits, read in base ten. *)
Definition digit_value (c : ascii) : Z := Z.of_nat (nat_of_ascii c) - 48.

Fixpoint int_acc (acc : Z) (s : string) : Z :=
  match s with
  | EmptyString => acc
  | String c s' => int_acc (10 * acc + digit_value c) s'
  end.

(** What [int(s)] returns when it returns; the conversion with its error
    is [int] below. *)
Definition int_value (s : string) : Z := int_acc 0 s.

(** The decimal text of an integer, with its sign: what [str(n)] returns
    when it returns; the conversion with its error is [print_int] below. *)
Definition str (n : Z) : string := NilZero.string_of_int (Z.to_int n).

(** The conversions between [int] and [str] refuse a run of more than 4300
    digits (leading zeros count, the sign does not). *)
Definition too_long (digits : string) : bool :=
  4300 <? Z.of_nat (String.length digits).

(** ** The module-level state *)

(** For mapping human-readable representations to plot-friendly numbers. *)
Definition event_values : gmap string string :=
  list_to_map
    [ ("CW_DEBUG_EVENT_TONE_LOW", "0");
      ("CW_DEBUG_EVENT_TONE_MID", "1");
      ("CW_DEBUG_EVENT_TONE_HIGH", "2");
      ("CW_DEBUG_EVENT_TQ_JUST_EMPTIED", "0");
      ("CW_DEBUG_EVENT_TQ_NONEMPTY", "1");
      ("CW_DEBUG_EVENT_TQ_STILL_EMPTY", "2") ].

Record globals := Globals {
  input_events : gmap Z string;
  tone_event_present : bool;
  tone_event_previous : string;
  tq_event_present : bool;
  tq_event_previous : string;
  stdout : string;
  stderr : list string
}.

Definition initial : globals :=
  {| input_events := ∅;
     tone_event_present := false;
     tone_event_previous := "CW_DEBUG_EVENT_TONE_LOW";
     tq_event_present := false;
     tq_event_previous := "CW_DEBUG_EVENT_TQ_STILL_EMPTY";
     stdout := "";
     stderr := [] |}.

(** ** Exceptions and the monad of the two passes *)

Inductive key := KStr (s : string) | KInt (n : Z).
Inductive exn := KeyError (k : key) | ValueError.
Inductive res (A : Type) := Ret (a : A) | Raise (e : exn).
Arguments Ret {A} a.
Arguments Raise {A} e.

Definition M (A : Type) : Type := globals → res A * globals.

Definition ret {A} (a : A) : M A := λ g, (Ret a, g).
Definition raise {A} (e : exn) : M A := λ g, (Raise e, g).
Definition bind {A B} (m : M A) (k : A → M B) : M B :=
  λ g, match m g with
       | (Ret a, g') => k a g'
       | (Raise e, g') => (Raise e, g')
       end.

Notation "'let!' x ':=' m 'in' k" := (bind m (λ x, k))
  (at level 10, x name, m at level 100, k at level 200).
Notation "m '>>' k" := (bind m (λ _, k))
  (at level 100, k at level 200, right associativity).

Definition gets {A} (f : globals → A) : M A := λ g, (Ret (f g), g).

(** A step that cannot raise. *)
Definition modify (f : globals → globals) : M unit := λ g, (Ret (), f g).

Definition when (b : bool) (m : M unit) : M unit := if b then m else ret ().

Fixpoint for_each {A} (body : A → M unit) (l : list A) : M unit :=
  match l with
  | [] => ret ()
  | x :: l' => body x >> for_each body l'
  end.

(** [int(s)] for a non-empty string of ASCII digits, which is all the
    pattern of the reading loop lets through: [ValueError] above the
    limit. *)
Definition int (s : string) : M Z :=
  if too_long s then raise ValueError else ret (int_value s).

(** ** The reading loop *)

(** [print(msg, file=sys.stderr)]. *)
Definition eprint (msg : string) (g : globals) : globals :=
  {| input_events := input_events g;
     tone_event_present := tone_event_present g;
     tone_event_previous := tone_event_previous g;
     tq_event_present := tq_event_present g;
     tq_event_previous := tq_event_previous g;
     stdout := stdout g;
     stderr := stderr g ++ [msg] |}.

(** [if key in input_events.keys(): print(msg, file=sys.stderr)]. *)
Definition collision (key : Z) (msg : string) (g : globals) : globals :=
  if decide (is_Some (input_events g !! key)) then eprint msg g else g.

(** [tone_event_present = True] and [tq_event_present = True], the first
    statement of each branch. *)
Definition set_tone_event_present (g : globals) : globals :=
  {| input_events := input_events g;
     tone_event_present := true;
     tone_event_previous := tone_event_previous g;
     tq_event_present := tq_event_present g;
     tq_event_previous := tq_event_previous g;
     stdout := stdout g;
     stderr := stderr g |}.

Definition set_tq_event_present (g : globals) : globals :=
  {| input_events := input_events g;
     tone_event_present := tone_event_present g;
     tone_event_previous := tone_event_previous g;
     tq_event_present := true;
     tq_event_previous := tq_event_previous g;
     stdout := stdout g;
     stderr := stderr g |}.

(** The [CW_DEBUG_EVENT_TONE] branch once [time] is known: the two
    collision tests, the two writes, the cursor. *)
Definition tone_branch (time : Z) (event : string) (g : globals) : globals :=
  let g1 := collision time "Tone collision 1" g in
  let g2 := collision (time - 1) "Tone collision 2" g1 in
  {| input_events :=
       <[time := event]> (<[time - 1 := tone_event_previous g2]> (input_events g2));
     tone_event_present := tone_event_present g2;
     tone_event_previous := event;
     tq_event_present := tq_event_present g2;
     tq_event_previous := tq_event_previous g2;
     stdout := stdout g2;
     stderr := stderr g2 |}.

(** The [CW_DEBUG_EVENT_TQ] branch once [time] is known. *)
Definition tq_branch (time : Z) (event : string) (g : globals) : globals :=
  let g1 := collision time "TQ collision 1" g in
  let g2 := collision (time - 1) "TQ collision 2" g1 in
  {| input_events :=
       <[time := event]> (<[time - 1 := tq_event_previous g2]> (input_events g2));
     tone_event_present := tone_event_present g2;
     tone_event_previous := tone_event_previous g2;
     tq_event_present := tq_event_present g2;
     tq_event_previous := event;
     stdout := stdout g2;
     stderr := stderr g2 |}.

(** One turn of [for line in f].  In the two event branches the presence
    flag is set before [int] is called, so it stays set when [int] raises.
    The [exit] that closes the last branch is a bare name, not a call: it
    is evaluated and dropped, and the loop goes on. *)
Definition process_line (g : globals) (line : string) : res unit * globals :=
  match line_re line with
  | None => ret () g
  | Some (group1, group2) =>
      if re_match "CW_DEBUG_EVENT_TONE" group2 then
        (modify set_tone_event_present >>
         let! time := int group1 in
         modify (tone_branch time group2)) g
      else if re_match "CW_DEBUG_EVENT_TQ" group2 then
        (modify set_tq_event_present >>
         let! time := int group1 in
         modify (tq_branch time group2)) g
      else
        modify (eprint ("Unknown type of debug event: " +:+ group2)) g
  end.

(** [for line in f]: the loop ends at the first exception. *)
Definition read_loop (lines : list string) : M unit :=
  for_each (λ line g, process_line g line) lines.

(** ** The printing pass *)

(** [print(text, end = "")]. *)
Definition print (text : string) : M unit :=
  λ g, (Ret (),
        {| input_events := input_events g;
           tone_event_present := tone_event_present g;
           tone_event_previous := tone_event_previous g;
           tq_event_present := tq_event_present g;
           tq_event_previous := tq_event_previous g;
           stdout := stdout g +:+ text;
           stderr := stderr g |}).

(** [print(n, end = "")] for an integer: [str(n)] raises [ValueError] when
    [n] has more than 4300 digits. *)
Definition print_int (n : Z) : M unit :=
  if too_long (str (Z.abs n)) then raise ValueError else print (str n).

Definition set_tone_event_previous (v : string) : M unit :=
  λ g, (Ret (),
        {| input_events := input_events g;
           tone_event_present := tone_event_present g;
           tone_event_previous := v;
           tq_event_present := tq_event_present g;
           tq_event_previous := tq_event_previous g;
           stdout := stdout g;
           stderr := stderr g |}).

Definition set_tq_event_previous (v : string) : M unit :=
  λ g, (Ret (),
        {| input_events := input_events g;
           tone_event_present := tone_event_present g;
           tone_event_previous := tone_event_previous g;
           tq_event_present := tq_event_present g;
           tq_event_previous := v;
           stdout := stdout g;
           stderr := stderr g |}).

(** [event_values[k]]. *)
Definition event_value (k : string) : M string :=
  λ g, match event_values !! k with
       | Some v => (Ret v, g)
       | None => (Raise (KeyError (KStr k)), g)
       end.

(** [input_events[time]]. *)
Definition input_event (time : Z) : M string :=
  λ g, match input_events g !! time with
       | Some v => (Ret v, g)
       | None => (Raise (KeyError (KInt time)), g)
       end.

(** Header of output table. *)
Definition print_header : M unit :=
  print "Time" >>
  (let! tone := gets tone_event_present in when tone (print (tab +:+ "Tone"))) >>
  (let! tq := gets tq_event_present in when tq (print (tab +:+ "TQ"))) >>
  print nl.

(** The cell of the Tone column in the row of [time].  The script reads
    [input_events[time]] again at each use; nothing writes the dictionary in
    between, so it is read once here. *)
Definition tone_cell (time : Z) : M unit :=
  let! entry := input_event time in
  if re_match "CW_DEBUG_EVENT_TONE" entry then
    let! code := event_value entry in
    print (tab +:+ code) >>
    set_tone_event_previous entry
  else
    let! previous := gets tone_event_previous in
    let! code := event_value previous in
    print (tab +:+ code).

(** The cell of the TQ column in the row of [time]. *)
Definition tq_cell (time : Z) : M unit :=
  let! entry := input_event time in
  if re_match "CW_DEBUG_EVENT_TQ" entry then
    let! code := event_value entry in
    print (tab +:+ code) >>
    set_tq_event_previous entry
  else
    let! previous := gets tq_event_previous in
    let! code := event_value previous in
    print (tab +:+ code).

(** The body of [for time in sorted(input_events.keys())]. *)
Definition print_row (time : Z) : M unit :=
  print_int time >>
  (let! tone := gets tone_event_present in when tone (tone_cell time)) >>
  (let! tq := gets tq_event_present in when tq (tq_cell time)) >>
  print nl.

(** [sorted] on integers. *)
Definition sorted (l : list Z) : list Z := merge_sort Z.le l.

(** [input_events.keys()], in the order the dictionary yields them. *)
Definition keys (m : gmap Z string) : list Z := (map_to_list m).*1.

(** Everything after the reading loop, given the enumeration [ks] of the
    keys of the dictionary.  The TQ cursor is restored to a label that is
    not the one it started from (and that [event_values] does not have). *)
Definition print_table_from (ks : list Z) : M unit :=
  set_tone_event_previous "CW_DEBUG_EVENT_TONE_LOW" >>
  set_tq_event_previous "CW_DEBUG_EVENT_TQ_STILL_NEMPTY" >>
  print_header >>
  for_each print_row (sorted ks).

Definition print_table : M unit :=
  λ g, print_table_from (keys (input_events g)) g.

(** The whole script on the lines of its input file. *)
Definition main (lines : list string) : res unit * globals :=
  (read_loop lines >> print_table) initial.

(** The same, with the enumeration of the keys of the final dictionary left
    to the caller. *)
Definition main_from (ks : list Z) (lines : list string) : res unit * globals :=
  (read_loop lines >> print_table_from ks) initial.

(** ** Test inputs *)

Definition event_line (time token : string) : string :=
  "libcwevent:" +:+ tab +:+ time +:+ tab +:+ token +:+ nl.

Definition two_tones : list string :=
  [ event_line "10" "CW_DEBUG_EVENT_TONE_MID";
    event_line "20" "CW_DEBUG_EVENT_TONE_HIGH" ].

(** The same two lines without the colon after [libcwevent]. *)
Definition two_tones_no_colon : list string :=
  [ "libcwevent" +:+ tab +:+ "10" +:+ tab +:+ "CW_DEBUG_EVENT_TONE_MID" +:+ nl;
    "libcwevent" +:+ tab +:+ "20" +:+ tab +:+ "CW_DEBUG_EVENT_TONE_HIGH" +:+ nl ].

Definition tone_then_tq : list string :=
  [ event_line "5" "CW_DEBUG_EVENT_TONE_HIGH";
    event_line "8" "CW_DEBUG_EVENT_TQ_NONEMPTY" ].

Definition unknown_variant : list string :=
  [ event_line "7" "CW_DEBUG_EVENT_TONE_FOO" ].

(** A run of [n] digits. *)
Fixpoint digits_run (n : nat) : string :=
  match n with
  | O => ""
  | S n' => String "1" (digits_run n')
  end.

(** A Tone line whose time has 4301 digits. *)
Definition long_tone_line : string :=
  event_line (digits_run 4301) "CW_DEBUG_EVENT_TONE_LOW".

Definition tq_then_tone : list string :=
  [ event_line "3" "CW_DEBUG_EVENT_TQ_NONEMPTY";
    event_line "8" "CW_DEBUG_EVENT_TONE_HIGH" ].

(** Two Tone events at 7, then a TQ event at 8. *)
Definition same_time_then_tq : list string :=
  [ event_line "7" "CW_DEBUG_EVENT_TONE_HIGH";
    event_line "7" "CW_DEBUG_EVENT_TONE_LOW";
    event_line "8" "CW_DEBUG_EVENT_TQ_NONEMPTY" ].

(** ** Reading the output back *)

(** A row of the table as text: the cells separated by tabs, then a newline. *)
Fixpoint cells_text (cells : list string) : string :=
  match cells with
  | [] => ""
  | [c] => c
  | c :: cs => c +:+ tab +:+ cells_text cs
  end.

Definition row_text (cells : list string) : string := cells_text cells +:+ nl.

Fixpoint table_text (rows : list (list string)) : string :=
  match rows with
  | [] => ""
  | r :: rs => row_text r +:+ table_text rs
  end.

(** The lines of a text that end in a newline (without it), and the
    unfinished line after the last newline. *)
Fixpoint split_lines (s : string) : list string * string :=
  match s with
  | EmptyString => ([], "")
  | String c s' =>
      let '(ls, p) := split_lines s' in
      if Ascii.eqb c NL then ("" :: ls, p)
      else match ls with
           | l :: ls' => (String c l :: ls', p)
           | [] => ([], String c p)
           end
  end.

(** The tab-separated fields of a line. *)
Fixpoint fields (s : string) : list string :=
  match s with
  | EmptyString => [""]
  | String c s' =>
      if Ascii.eqb c TAB then "" :: fields s'
      else match fields s' with
           | f :: fs => String c f :: fs
           | [] => [String c ""]
           end
  end.

(** The finished rows of the output, each as its list of fields. *)
Definition rows_written (out : string) : list (list string) :=
  fields <$> (split_lines out).1.

(** ** The line format, in the words of the specification *)

Fixpoint string_forall (f : ascii → bool) (s : string) : bool :=
  match s with
  | EmptyString => true
  | String c s' => f c && string_forall f s'
  end.

(** A text that [for line in f] leaves in one piece when it is read back:
    it holds no newline and no carriage return (which the text mode of
    [open] reads as a line end too). *)
Definition CR : ascii := "013"%char.

Definition on_one_line (s : string) : bool :=
  string_forall (λ c, is_dot c && negb (Ascii.eqb c CR)) s.

(** A line matches when it starts with [libcwevent:], a tab, a non-empty run
    of digits (a non-negative integer), a tab, and a non-empty token that
    stays on the line. *)
Definition line_matches (line : string) : Prop :=
  ∃ digits token rest,
    line = "libcwevent:" +:+ tab +:+ digits +:+ tab +:+ token +:+ rest
    ∧ digits ≠ "" ∧ string_forall is_digit digits = true
    ∧ token ≠ "" ∧ string_forall is_dot token = true.

(** The categories of event. *)
Inductive category := Tone | TQ.

#[export] Instance category_eq_dec : EqDecision category.
Proof. solve_decision. Defined.

(** The category the reading loop files a token under, by its prefix. *)
Definition classify (token : string) : option category :=
  if re_match "CW_DEBUG_EVENT_TONE" token then Some Tone
  else if re_match "CW_DEBUG_EVENT_TQ" token then Some TQ
  else None.

(** The token of a line that matches the format and falls in one of the two
    event branches: category, digits, token. *)
Definition classified (line : string) : option (category * string * string) :=
  match line_re line with
  | Some (group1, group2) =>
      match classify group2 with
      | Some c => Some (c, group1, group2)
      | None => None
      end
  | None => None
  end.

(** The event a line carries, if it carries one: category, time, variant.
    A line whose digits [int] refuses carries none. *)
Definition event_of (line : string) : option (category * Z * string) :=
  match classified line with
  | Some (c, group1, group2) =>
      if too_long group1 then None else Some (c, int_value group1, group2)
  | None => None
  end.

(** The categories of the lines of an input that reach an event branch, in
    the order of the lines. *)
Definition categories (lines : list string) : list category :=
  omap (λ line, (λ e, e.1.1) <$> classified line) lines.

(** Every time of the input can be converted: no line that reaches an event
    branch has more than 4300 digits. *)
Definition times_parse (lines : list string) : Prop :=
  Forall (λ line, match classified line with
                  | Some (_, group1, _) => too_long group1 = false
                  | None => True
                  end) lines.

#[export] Instance times_parse_dec (lines : list string) :
  Decision (times_parse lines).
Proof.
  unfold times_parse. apply Forall_dec. intros line.
  destruct (classified line) as [[[c group1] group2]|]; apply _.
Defined.

(** A category occurs in an input when one of its lines reaches the branch
    of that category. *)
Definition occurs (c : category) (lines : list string) : Prop :=
  c ∈ categories lines.

(** Every event of the input carries one of the six names of
    [event_values]. *)
Definition known_variants (lines : list string) : Prop :=
  Forall (λ line, ∀ c time variant,
            event_of line = Some (c, time, variant) →
            is_Some (event_values !! variant)) lines.

(** The presence flag and the cursor of a category. *)
Definition present (c : category) (g : globals) : bool :=
  match c with
  | Tone => tone_event_present g
  | TQ => tq_event_present g
  end.

Definition previous (c : category) (g : globals) : string :=
  match c with
  | Tone => tone_event_previous g
  | TQ => tq_event_previous g
  end.

Definition other (c : category) : category :=
  match c with Tone => TQ | TQ => Tone end.

(** The state with the flag of [c] set. *)
Definition set_present (c : category) (g : globals) : globals :=
  match c with
  | Tone => set_tone_event_present g
  | TQ => set_tq_event_present g
  end.

(** An integer [str] converts: at most 4300 digits. *)
Definition in_range (k : Z) : Prop := too_long (str (Z.abs k)) = false.

(** The cells of the header for the two presence flags. *)
Definition header_cells (g : globals) : list string :=
  "Time" :: (if tone_event_present g then ["Tone"] else [])
         ++ (if tq_event_present g then ["TQ"] else []).

(** A cell holds neither a tab nor a newline. *)
Definition clean (s : string) : bool :=
  string_forall (λ c, negb (Ascii.eqb c TAB) && negb (Ascii.eqb c NL)) s.

(** What the printing pass never touches: the dictionary, the two presence
    flags and the error stream. *)
Definition same_table (g g' : globals) : Prop :=
  input_events g' = input_events g
  ∧ tone_event_present g' = tone_event_present g
  ∧ tq_event_present g' = tq_event_present g
  ∧ stderr g' = stderr g.

(** The state when the loop over the sorted keys starts: both cursors
    restored, the header written. *)
Definition start_printing (g : globals) : globals :=
  {| input_events := input_events g;
     tone_event_present := tone_event_present g;
     tone_event_previous := "CW_DEBUG_EVENT_TONE_LOW";
     tq_event_present := tq_event_present g;
     tq_event_previous := "CW_DEBUG_EVENT_TQ_STILL_NEMPTY";
     stdout := stdout g +:+ row_text (header_cells g);
     stderr := stderr g |}.

(** The cell of a category. *)
Definition cell (c : category) (time : Z) : M unit :=
  match c with
  | Tone => tone_cell time
  | TQ => tq_cell time
  end.

(** Every entry of the dictionary, and the cursor of [c] during the reading
    loop, is filed under [c] and is a key of [event_values]. *)
Definition known_entry (c : category) (v : string) : Prop :=
  classify v = Some c ∧ is_Some (event_values !! v).

Definition single_category (c : category) (g : globals) : Prop :=
  (∀ k v, input_events g !! k = Some v → known_entry c v)
  ∧ known_entry c (previous c g)
  ∧ present (other c) g = false.

(** What a cell and a row can leave behind. *)
Inductive cell_outcome (g : globals) : res unit * globals → Prop :=
  | cell_written (code : string) (g' : globals) :
      clean code = true →
      stdout g' = stdout g +:+ tab +:+ code →
      same_table g g' →
      cell_outcome g (Ret (), g')
  | cell_raised (e : exn) :
      cell_outcome g (Raise e, g).

Inductive row_outcome (time : Z) (g : globals) : res unit * globals → Prop :=
  | row_written (cells : list string) (g' : globals) :
      Forall (λ c, clean c = true) cells →
      length (str time :: cells) = length (header_cells g) →
      stdout g' = stdout g +:+ row_text (str time :: cells) →
      same_table g g' →
      row_outcome time g (Ret (), g')
  | row_raised (e : exn) (cells : list string) (g' : globals) :
      Forall (λ c, clean c = true) cells →
      stdout g' = stdout g +:+ cells_text (str time :: cells) →
      same_table g g' →
      row_outcome time g (Raise e, g')
  | row_not_started :
      ¬ in_range time →
      row_outcome time g (Raise ValueError, g).

(** Below the slot [t2 - 1] the dictionary holds Tone entries only, and the
    Tone cursor holds a Tone entry. *)
Definition tone_below (t2 : Z) (g : globals) : Prop :=
  (∀ k v, input_events g !! k = Some v → classify v = Some Tone ∨ t2 - 1 ≤ k)
  ∧ classify (tone_event_previous g) = Some Tone.

(** Every key of the dictionary is at least [low]. *)
Definition keys_from (low : Z) (g : globals) : Prop :=
  ∀ k, is_Some (input_events g !! k) → low ≤ k.

(** ** Vocabulary for the properties of the two passes *)

(** The times of the events of an input, in the order of the lines. *)
Definition event_times (lines : list string) : list Z :=
  omap (λ line, (λ e, e.1.2) <$> event_of line) lines.

(** Any two times of the list are at least two units apart. *)
Fixpoint spaced (ts : list Z) : Prop :=
  match ts with
  | [] => True
  | t :: ts' => Forall (λ t', 2 ≤ Z.abs (t - t')) ts' ∧ spaced ts'
  end.

(** Every line that matches the format reaches an event branch: no token
    falls in the last branch of the loop. *)
Definition no_unknown_token (lines : list string) : Prop :=
  Forall (λ line, is_Some (line_re line) → is_Some (classified line)) lines.

(** The message of the second collision test of each branch. *)
Definition collision_2 (c : category) : string :=
  match c with
  | Tone => "Tone collision 2"
  | TQ => "TQ collision 2"
  end.

(** The state [g] with another error stream. *)
Definition set_stderr (e : list string) (g : globals) : globals :=
  {| input_events := input_events g;
     tone_event_present := tone_event_present g;
     tone_event_previous := tone_event_previous g;
     tq_event_present := tq_event_present g;
     tq_event_previous := tq_event_previous g;
     stdout := stdout g;
     stderr := e |}.

(** The prefix a category is recognised by. *)
Definition prefix_of (c : category) : string :=
  match c with
  | Tone => "CW_DEBUG_EVENT_TONE"
  | TQ => "CW_DEBUG_EVENT_TQ"
  end.

(** The label each cursor is restored to before the table is printed. *)
Definition restored (c : category) : string :=
  match c with
  | Tone => "CW_DEBUG_EVENT_TONE_LOW"
  | TQ => "CW_DEBUG_EVENT_TQ_STILL_NEMPTY"
  end.

(** The last entry of category [c] among [entries], [start] if none. *)
Definition latest (c : category) (start : string) (entries : list string) : string :=
  foldl (λ cur v, if re_match (prefix_of c) v then v else cur) start entries.

(** The plot code of a name, the empty text for a name without one. *)
Definition code (v : string) : string := default "" (event_values !! v).

Definition entry_at (m : gmap Z string) (k : Z) : string := default "" (m !! k).

(** The rows a forward fill gives for the keys [ks], after the entries
    [seen]: in each row the time, then for each column that is switched on
    the code of the latest entry of its category up to this row. *)
Fixpoint expected_rows (m : gmap Z string) (tone tq : bool)
    (seen : list string) (ks : list Z) : list (list string) :=
  match ks with
  | [] => []
  | k :: ks' =>
      let seen' := seen ++ [entry_at m k] in
      (str k :: (if tone then [code (latest Tone (restored Tone) seen')] else [])
             ++ (if tq then [code (latest TQ (restored TQ) seen')] else []))
      :: expected_rows m tone tq seen' ks'
  end.

(** The entry a cell of category [c] shows for the entry [v] of the row:
    [v] itself when it is of category [c], else the cursor. *)
Definition shown (c : category) (v cursor : string) : string :=
  if re_match (prefix_of c) v then v else cursor.

(** The state after a cell of category [c] wrote [text] and left its cursor
    on [u]. *)
Definition after_cell (c : category) (u text : string) (g : globals) : globals :=
  {| input_events := input_events g;
     tone_event_present := tone_event_present g;
     tone_event_previous :=
       match c with Tone => u | TQ => tone_event_previous g end;
     tq_event_present := tq_event_present g;
     tq_event_previous :=
       match c with Tone => tq_event_previous g | TQ => u end;
     stdout := stdout g +:+ tab +:+ text;
     stderr := stderr g |}.

(** A column of a row: the cell of [c] when the flag of [c] is set. *)
Definition column (c : category) (time : Z) (g : globals) : res unit * globals :=
  if present c g then cell c time g else (Ret (), g).

(** The entry of the first row, if there is a row. *)
Definition first_entry (g : globals) : option string :=
  entry_at (input_events g) <$> head (sorted (keys (input_events g))).

(** A computation of the printing pass that neither reads nor writes the
    error stream. *)
Definition blind {A} (m : M A) : Prop :=
  ∀ e g, m (set_stderr e g) = ((m g).1, set_stderr e (m g).2).

(** A name with a plot code. *)
Definition known (v : string) : Prop := is_Some (event_values !! v).

(** During the reading loop: every entry and both cursors have a plot
    code. *)
Definition all_known (g : globals) : Prop :=
  (∀ k v, input_events g !! k = Some v → known v)
  ∧ known (tone_event_previous g) ∧ known (tq_event_previous g).

(** During the printing pass: every entry has a plot code, and so has each
    cursor that can be read (the TQ cursor only when its column is on). *)
Definition printable (g : globals) : Prop :=
  (∀ k v, input_events g !! k = Some v → known v)
  ∧ known (tone_event_previous g)
  ∧ (tq_event_present g = true → known (tq_event_previous g)).

(** The lines of an input that reach an event branch. *)
Definition events_only (lines : list string) : list string :=
  filter (λ line, is_Some (classified line)) lines.

(** The variants of the events of category [c], in the order of the
    lines. *)
Definition variants (c : category) (lines : list string) : list string :=
  omap (λ line, match event_of line with
                | Some (c', _, v) => if decide (c' = c) then Some v else None
                | None => None
                end) lines.

(** The variant of the last event of category [c], [start] if there is
    none. *)
Definition last_variant (c : category) (start : string) (lines : list string)
    : string :=
  foldl (λ _ v, v) start (variants c lines).

#[export] Instance occurs_dec (c : category) (lines : list string) :
  Decision (occurs c lines).
Proof. unfold occurs. apply _. Defined.

(** * Properties *)

(** ** Text *)

Lemma append_cons (c : ascii) (s t : string) :
  String c s +:+ t = String c (s +:+ t).
Proof. reflexivity. Qed.

Lemma append_nil_l (t : string) : "" +:+ t = t.
Proof. reflexivity. Qed.

(** [+:+] does not unfold under [simpl]; its two equations are rewritten. *)
Ltac simpl_append :=
  repeat (rewrite ?append_cons, ?append_nil_l in *; simpl in * ).

Lemma append_nil_r (s : string) : s +:+ "" = s.
Proof. induction s as [|c s IH]; simpl_append; [done | by rewrite IH]. Qed.

Lemma append_assoc (a b c : string) : (a +:+ b) +:+ c = a +:+ (b +:+ c).
Proof. induction a as [|x a IH]; simpl_append; [done | by rewrite IH]. Qed.

Lemma strip_prefix_Some (p s r : string) :
  strip_prefix p s = Some r ↔ s = p +:+ r.
Proof.
  revert s. induction p as [|a p IH]; intros s; simpl_append.
  - split; [by intros [= ->] | by intros ->].
  - destruct s as [|b s]; [split; discriminate |].
    destruct (Ascii.eqb_spec a b) as [->|Hne].
    + rewrite IH. split; [by intros -> | by intros [= ->]].
    + split; [discriminate | by intros [= -> _]].
Qed.

Lemma span_split (f : ascii → bool) (s a b : string) :
  span f s = (a, b) →
  s = a +:+ b ∧ string_forall f a = true
  ∧ match b with String c _ => f c = false | EmptyString => True end.
Proof.
  revert a b. induction s as [|c s IH]; intros a b; simpl.
  - by intros [= <- <-].
  - destruct (f c) eqn:Hc.
    + destruct (span f s) as [a' b'] eqn:Hs. intros [= <- <-].
      destruct (IH a' b' eq_refl) as (-> & Ha & Hb).
      rewrite append_cons. simpl. by rewrite Hc.
    + by intros [= <- <-].
Qed.

Lemma span_longest (f : ascii → bool) (a b : string) :
  string_forall f a = true →
  match b with String c _ => f c = false | EmptyString => True end →
  span f (a +:+ b) = (a, b).
Proof.
  intros Ha Hb. induction a as [|c a IH].
  - rewrite append_nil_l. destruct b as [|c b]; simpl; [done | by rewrite Hb].
  - rewrite append_cons. simpl in *.
    apply andb_true_iff in Ha as [-> Ha]. by rewrite (IH Ha).
Qed.

Lemma span_nonempty (f : ascii → bool) (a b : string) :
  a ≠ "" → string_forall f a = true → (span f (a +:+ b)).1 ≠ "".
Proof.
  destruct a as [|c a]; [done |]. rewrite append_cons. simpl.
  intros _ [-> _]%andb_true_iff.
  by destruct (span f (a +:+ b)).
Qed.

(** The scanner [line_re] recognises exactly the lines of the format. *)
Lemma line_re_matches (line : string) :
  is_Some (line_re line) ↔ line_matches line.
Proof.
  unfold line_re, line_matches. split.
  - intros [[d t] H].
    destruct (strip_prefix _ line) as [r|] eqn:Hp; [|done].
    apply strip_prefix_Some in Hp as ->.
    destruct (span is_digit r) as [ds r1] eqn:Hd.
    apply span_split in Hd as (-> & Hds & _).
    destruct ds as [|c0 ds]; [done |].
    destruct r1 as [|c r']; [done |].
    destruct (Ascii.eqb_spec c TAB) as [->|]; [|done].
    destruct (span is_dot r') as [tok r2] eqn:Ht.
    apply span_split in Ht as (-> & Htok & _).
    destruct tok as [|c1 tok]; [done |].
    exists (String c0 ds), (String c1 tok), r2.
    by split_and!.
  - intros (ds & tok & rest & -> & Hne & Hds & Htne & Htok).
    rewrite <- (append_assoc "libcwevent:" tab).
    rewrite (proj2 (strip_prefix_Some _ _ _) eq_refl).
    rewrite (span_longest is_digit ds (tab +:+ tok +:+ rest) Hds eq_refl).
    destruct ds as [|c0 ds]; [done |]. unfold tab at 1. rewrite append_cons.
    rewrite append_nil_l, Ascii.eqb_refl.
    pose proof (span_nonempty is_dot tok rest Htne Htok) as Hn.
    destruct (span is_dot (tok +:+ rest)) as [[|c1 t] r2]; [done | eauto].
Qed.

Lemma line_re_None (line : string) :
  ¬ line_matches line → line_re line = None.
Proof.
  intros Hn. destruct (line_re line) eqn:H; [|done].
  destruct Hn. apply line_re_matches. eauto.
Qed.

(** ** The monad *)

(** The two equations of [bind]: a result is passed on, an exception cuts
    the rest short and keeps the state it was raised in. *)
Section bind.
Context {A B : Type} (m : M A) (k : A → M B) (g g' : globals).

Lemma bind_Ret (a : A) : m g = (Ret a, g') → bind m k g = k a g'.
Proof. intros H. unfold bind. by rewrite H. Qed.

Lemma bind_Raise (e : exn) :
  m g = (Raise e, g') → bind m k g = (Raise e, g').
Proof. intros H. unfold bind. by rewrite H. Qed.

End bind.

(** ** The reading loop *)

Lemma read_loop_cons (line : string) (lines : list string) (g : globals) :
  read_loop (line :: lines) g =
    match process_line g line with
    | (Ret _, g') => read_loop lines g'
    | (Raise e, g') => (Raise e, g')
    end.
Proof. reflexivity. Qed.

Lemma read_loop_app (l1 l2 : list string) (g : globals) :
  read_loop (l1 ++ l2) g =
    match read_loop l1 g with
    | (Ret _, g') => read_loop l2 g'
    | (Raise e, g') => (Raise e, g')
    end.
Proof.
  revert g. induction l1 as [|line l1 IH]; intros g.
  - simpl. by destruct (read_loop l2 g) as [[[]|e] g'].
  - simpl app. rewrite !read_loop_cons.
    destruct (process_line g line) as [[[]|e] g']; [apply IH | done].
Qed.

(** Whatever holds of the state when the loop starts and is kept by every
    line holds when the loop stops, normally or not. *)
Lemma read_loop_invariant (I : globals → Prop) (lines : list string) (g : globals) :
  (∀ g line, I g → I (process_line g line).2) →
  I g → I (read_loop lines g).2.
Proof.
  intros Hstep. revert g. induction lines as [|line lines IH]; intros g Hg;
    [done |].
  rewrite read_loop_cons. specialize (Hstep g line Hg).
  destruct (process_line g line) as [[[]|e] g']; [by apply IH | done].
Qed.

(** A loop that ends normally went through every line. *)
Lemma read_loop_cons_Ret (line : string) (lines : list string) (g : globals) :
  (read_loop (line :: lines) g).1 = Ret () →
  ∃ g', process_line g line = (Ret (), g')
        ∧ read_loop (line :: lines) g = read_loop lines g'.
Proof.
  rewrite read_loop_cons.
  destruct (process_line g line) as [[[]|e] g']; [eauto | done].
Qed.

Lemma process_line_no_match (g : globals) (line : string) :
  line_re line = None → process_line g line = (Ret (), g).
Proof. intros Hn. unfold process_line. by rewrite Hn. Qed.

Lemma not_line_matches (line : string) :
  line_re line = None → ¬ line_matches line.
Proof. intros Hn [x Hx]%line_re_matches. congruence. Qed.

(** C7.  A line that does not match the format
    [libcwevent:<TAB>digits<TAB>token] changes nothing: the whole state
    after the line (dictionary, both cursors, both flags, standard output
    and the error stream) is the state before it. *)
Theorem non_matching_line_ignored (g : globals) (line : string) :
  ¬ line_matches line → process_line g line = (Ret (), g).
Proof.
  intros Hn. by apply process_line_no_match, line_re_None.
Qed.

Lemma non_matching_line_ignored_witness :
  ¬ line_matches ("cw: sending" +:+ nl)
  ∧ process_line initial ("cw: sending" +:+ nl) = (Ret (), initial).
Proof.
  assert (Hn : ¬ line_matches ("cw: sending" +:+ nl)).
  { by apply not_line_matches. }
  split; [exact Hn | exact (non_matching_line_ignored initial _ Hn)].
Defined.

(** C3.  A line whose time parses (the line matches the format) and whose
    token starts with neither category prefix writes one diagnostic to the
    error stream and nothing else: the dictionary, the flags, the cursors
    and standard output are untouched, and the loop goes on with the lines
    that follow. *)
Theorem unknown_token_diagnosed
    (g : globals) (line group1 group2 : string) (rest : list string) :
  line_re line = Some (group1, group2) →
  re_match "CW_DEBUG_EVENT_TONE" group2 = false →
  re_match "CW_DEBUG_EVENT_TQ" group2 = false →
  let g' := (process_line g line).2 in
  process_line g line
    = (Ret (), eprint ("Unknown type of debug event: " +:+ group2) g)
  ∧ stderr g' = stderr g ++ ["Unknown type of debug event: " +:+ group2]
  ∧ input_events g' = input_events g
  ∧ stdout g' = stdout g
  ∧ read_loop (line :: rest) g = read_loop rest g'.
Proof.
  intros Hm Htone Htq g'.
  assert (Hg : process_line g line
               = (Ret (), eprint ("Unknown type of debug event: " +:+ group2) g)).
  { unfold process_line. by rewrite Hm, Htone, Htq. }
  split; [exact Hg |]. subst g'. rewrite read_loop_cons. by rewrite Hg.
Qed.

Lemma unknown_token_diagnosed_witness :
  let line := event_line "3" "CW_DEBUG_EVENT_FOO" in
  let g' := (process_line initial line).2 in
  line_re line = Some ("3", "CW_DEBUG_EVENT_FOO")
  ∧ re_match "CW_DEBUG_EVENT_TONE" "CW_DEBUG_EVENT_FOO" = false
  ∧ re_match "CW_DEBUG_EVENT_TQ" "CW_DEBUG_EVENT_FOO" = false
  ∧ process_line initial line
    = (Ret (), eprint "Unknown type of debug event: CW_DEBUG_EVENT_FOO" initial)
  ∧ stderr g' = ["Unknown type of debug event: CW_DEBUG_EVENT_FOO"]
  ∧ input_events g' = ∅
  ∧ stdout g' = ""
  ∧ read_loop (line :: two_tones) initial = read_loop two_tones g'.
Proof.
  do 3 (split; [reflexivity |]).
  apply (unknown_token_diagnosed initial (event_line "3" "CW_DEBUG_EVENT_FOO")
           "3" "CW_DEBUG_EVENT_FOO" two_tones); reflexivity.
Defined.

Lemma read_loop_no_match (lines : list string) (g : globals) :
  Forall (λ line, ¬ line_matches line) lines → read_loop lines g = (Ret (), g).
Proof.
  induction 1 as [|line lines Hn _ IH]; [done |].
  by rewrite read_loop_cons, process_line_no_match by by apply line_re_None.
Qed.

(** C10.  When no line of the input matches the format (the empty input
    included), the script ends normally and its standard output is the one
    line [Time]: no category column, no data row. *)
Theorem no_event_line_header_only (lines : list string) :
  Forall (λ line, ¬ line_matches line) lines →
  (main lines).1 = Ret ()
  ∧ stdout (main lines).2 = "Time" +:+ nl
  ∧ rows_written (stdout (main lines).2) = [["Time"]].
Proof.
  intros Hn. unfold main.
  rewrite (bind_Ret _ _ _ _ _ (read_loop_no_match lines initial Hn)).
  by vm_compute.
Qed.

Lemma no_event_line_header_only_witness :
  let lines := ["cw: sending" +:+ nl; "libcwevent:" +:+ tab +:+ "12" +:+ nl; nl] in
  Forall (λ line, ¬ line_matches line) lines
  ∧ (main lines).1 = Ret ()
  ∧ stdout (main lines).2 = "Time" +:+ nl
  ∧ rows_written (stdout (main lines).2) = [["Time"]].
Proof.
  intros lines.
  assert (Hn : Forall (λ line, ¬ line_matches line) lines).
  { repeat constructor; by apply not_line_matches. }
  split; [exact Hn | exact (no_event_line_header_only lines Hn)].
Defined.

Example empty_input_header_only :
  main [] = (Ret (), (main []).2) ∧ stdout (main []).2 = "Time" +:+ nl.
Proof. by vm_compute. Qed.

(** ** The examples of the specification *)

(** C1 (as amended: the two lines start with [libcwevent:], colon
    included).  After the reading loop the dictionary holds exactly
    9 -> Low, 10 -> Mid, 19 -> Mid (the synthesized predecessor) and
    20 -> High, whose plot codes are 0, 1, 1 and 2; the keys are visited in
    the order 9, 10, 19, 20 and the output is the header and these four
    rows. *)
Theorem two_tones_table :
  let g := (read_loop two_tones initial).2 in
  input_events g =
    {[ 9 := "CW_DEBUG_EVENT_TONE_LOW"; 10 := "CW_DEBUG_EVENT_TONE_MID";
       19 := "CW_DEBUG_EVENT_TONE_MID"; 20 := "CW_DEBUG_EVENT_TONE_HIGH" ]}
  ∧ event_values !! "CW_DEBUG_EVENT_TONE_LOW" = Some "0"
  ∧ event_values !! "CW_DEBUG_EVENT_TONE_MID" = Some "1"
  ∧ event_values !! "CW_DEBUG_EVENT_TONE_HIGH" = Some "2"
  ∧ sorted (keys (input_events g)) = [9; 10; 19; 20]
  ∧ (main two_tones).1 = Ret ()
  ∧ stdout (main two_tones).2 =
      table_text [ ["Time"; "Tone"];
                   ["9"; "0"]; ["10"; "1"]; ["19"; "1"]; ["20"; "2"] ]
  ∧ stderr (main two_tones).2 = [].
Proof. by vm_compute. Qed.

(** C1, as it is worded.  The two lines spelled without the colon after
    [libcwevent] do not match the format: the dictionary stays empty and
    only the header is printed. *)
Lemma two_tones_no_colon_ignored :
  let g := (read_loop two_tones_no_colon initial).2 in
  input_events g = ∅
  ∧ input_events g ≠
      {[ 9 := "CW_DEBUG_EVENT_TONE_LOW"; 10 := "CW_DEBUG_EVENT_TONE_MID";
         19 := "CW_DEBUG_EVENT_TONE_MID"; 20 := "CW_DEBUG_EVENT_TONE_HIGH" ]}
  ∧ input_events g !! 10 = None
  ∧ stdout (main two_tones_no_colon).2 = table_text [ ["Time"] ].
Proof. by vm_compute. Qed.

(** With the TQ column switched on and the cursor on the label the printing
    pass starts from, a row whose entry is not a TQ event cannot be
    filled: the label is not a key of [event_values]. *)
Lemma tq_cell_raises (g : globals) (time : Z) (entry : string) :
  input_events g !! time = Some entry →
  re_match "CW_DEBUG_EVENT_TQ" entry = false →
  tq_event_previous g = "CW_DEBUG_EVENT_TQ_STILL_NEMPTY" →
  tq_cell time g = (Raise (KeyError (KStr "CW_DEBUG_EVENT_TQ_STILL_NEMPTY")), g).
Proof.
  intros He Hm Hp. unfold tq_cell, bind, input_event, gets, event_value.
  by rewrite He, Hm, Hp.
Qed.

(** C2 (the code at the failing input).  A Tone event at 5 and the first TQ
    event at 8: the reading loop fills 4, 5, 7 and 8; the printing pass
    writes the header and the first two cells of the row of 4 and raises
    [KeyError] on the TQ cell, so no row for 5 is written. *)
Theorem tone_then_tq_raises :
  sorted (keys (input_events (read_loop tone_then_tq initial).2)) = [4; 5; 7; 8]
  ∧ (main tone_then_tq).1 =
      Raise (KeyError (KStr "CW_DEBUG_EVENT_TQ_STILL_NEMPTY"))
  ∧ stdout (main tone_then_tq).2 =
      row_text ["Time"; "Tone"; "TQ"] +:+ cells_text ["4"; "0"]
  ∧ rows_written (stdout (main tone_then_tq).2) = [ ["Time"; "Tone"; "TQ"] ]
  ∧ event_values !! "CW_DEBUG_EVENT_TQ_STILL_NEMPTY" = None
  ∧ event_values !! "CW_DEBUG_EVENT_TQ_STILL_EMPTY" = Some "2".
Proof. by vm_compute. Qed.

(** C8.  There is an input whose token starts with a category prefix and is
    none of the six names: the reading loop files it in the dictionary and
    writes nothing to the error stream, and the printing pass raises
    [KeyError] when it looks the token up in [event_values]. *)
Theorem unknown_variant_accepted_then_raises :
  ∃ (lines : list string) (token : string),
    lines = [event_line "7" token]
    ∧ re_match "CW_DEBUG_EVENT_TONE" token = true
    ∧ event_values !! token = None
    ∧ input_events (read_loop lines initial).2 !! 7 = Some token
    ∧ stderr (read_loop lines initial).2 = []
    ∧ (main lines).1 = Raise (KeyError (KStr token))
    ∧ stdout (main lines).2 =
        row_text ["Time"; "Tone"] +:+ row_text ["6"; "0"] +:+ "7".
Proof.
  exists unknown_variant, "CW_DEBUG_EVENT_TONE_FOO". by vm_compute.
Qed.

(** ** What a line does to the state *)

Lemma res_eta (p : res unit * globals) : p.1 = Ret () → p = (Ret (), p.2).
Proof. by destruct p as [[[]|e] g]. Qed.

Lemma classified_inv (line : string) (c : category) (group1 group2 : string) :
  classified line = Some (c, group1, group2) →
  line_re line = Some (group1, group2) ∧ classify group2 = Some c.
Proof.
  unfold classified. destruct (line_re line) as [[d t]|]; [|done].
  destruct (classify t) as [c'|] eqn:Hc; [|done]. by intros [= <- <- <-].
Qed.

Lemma event_of_classified
    (line : string) (c : category) (time : Z) (variant : string) :
  event_of line = Some (c, time, variant) →
  ∃ group1, classified line = Some (c, group1, variant)
            ∧ too_long group1 = false ∧ int_value group1 = time.
Proof.
  unfold event_of. destruct (classified line) as [[[c' d] t]|]; [|done].
  destruct (too_long d) eqn:Hd; [done |]. intros [= <- <- <-]. eauto.
Qed.

Lemma event_of_inv (line : string) (c : category) (time : Z) (variant : string) :
  event_of line = Some (c, time, variant) →
  ∃ group1, line_re line = Some (group1, variant)
            ∧ too_long group1 = false
            ∧ int_value group1 = time ∧ classify variant = Some c.
Proof.
  intros (d & [Hre Hc]%classified_inv & Hd & Ht)%event_of_classified. eauto 6.
Qed.

(** A line belongs to one of three kinds: it reaches no event branch, it
    carries an event, or it reaches an event branch with a time that [int]
    refuses. *)
Lemma line_cases (line : string) :
  classified line = None
  ∨ (∃ c time variant, event_of line = Some (c, time, variant))
  ∨ (∃ c group1 group2,
       classified line = Some (c, group1, group2) ∧ too_long group1 = true).
Proof.
  unfold event_of. destruct (classified line) as [[[c d] t]|]; [|by left].
  right. destruct (too_long d) eqn:Hd; [right | left]; eauto 6.
Qed.

Lemma event_of_None_or_Some (line : string) :
  event_of line = None ∨ ∃ c time variant, event_of line = Some (c, time, variant).
Proof. destruct (event_of line) as [[[c t] v]|]; eauto. Qed.

(** The branch of category [c], as the loop runs it. *)
Lemma process_line_classified
    (g : globals) (line : string) (c : category) (group1 group2 : string) :
  classified line = Some (c, group1, group2) →
  process_line g line =
    match int group1 (set_present c g) with
    | (Ret time, g1) =>
        (Ret (), match c with
                 | Tone => tone_branch time group2 g1
                 | TQ => tq_branch time group2 g1
                 end)
    | (Raise e, g1) => (Raise e, g1)
    end.
Proof.
  intros [Hre Hc]%classified_inv. unfold process_line. rewrite Hre.
  unfold classify in Hc. destruct (re_match "CW_DEBUG_EVENT_TONE" group2).
  - injection Hc as <-. unfold bind, modify. simpl.
    by destruct (int group1 (set_tone_event_present g)) as [[t|e] g1].
  - destruct (re_match "CW_DEBUG_EVENT_TQ" group2); [|done].
    injection Hc as <-. unfold bind, modify. simpl.
    by destruct (int group1 (set_tq_event_present g)) as [[t|e] g1].
Qed.

(** A line that reaches no event branch can only add to the error
    stream. *)
Lemma process_line_unclassified (g : globals) (line : string) :
  classified line = None →
  ∃ e, process_line g line = (Ret (), set_stderr e g).
Proof.
  unfold classified, process_line, classify.
  destruct (line_re line) as [[d t]|].
  - destruct (re_match "CW_DEBUG_EVENT_TONE" t); [done |].
    destruct (re_match "CW_DEBUG_EVENT_TQ" t); [done |]. intros _.
    by exists (stderr g ++ ["Unknown type of debug event: " +:+ t]).
  - intros _. exists (stderr g). by destruct g.
Qed.

(** A time of more than 4300 digits: the flag of the category is already
    set when [int] raises, and nothing else has changed. *)
Lemma process_line_overlong
    (g : globals) (line : string) (c : category) (group1 group2 : string) :
  classified line = Some (c, group1, group2) → too_long group1 = true →
  process_line g line = (Raise ValueError, set_present c g).
Proof.
  intros Hc Hd. rewrite (process_line_classified g line c group1 group2 Hc).
  unfold int. by rewrite Hd.
Qed.

Lemma collision_same (key : Z) (msg : string) (g : globals) :
  input_events (collision key msg g) = input_events g
  ∧ tone_event_present (collision key msg g) = tone_event_present g
  ∧ tone_event_previous (collision key msg g) = tone_event_previous g
  ∧ tq_event_present (collision key msg g) = tq_event_present g
  ∧ tq_event_previous (collision key msg g) = tq_event_previous g
  ∧ stdout (collision key msg g) = stdout g.
Proof. unfold collision. by case_decide. Qed.

(** A line that carries an event does not raise. *)
Lemma process_line_event_Ret
    (g : globals) (line : string) (c : category) (time : Z) (variant : string) :
  event_of line = Some (c, time, variant) →
  process_line g line =
    (Ret (), match c with
             | Tone => tone_branch time variant (set_present c g)
             | TQ => tq_branch time variant (set_present c g)
             end).
Proof.
  intros (d & Hc & Hd & <-)%event_of_classified.
  rewrite (process_line_classified g line c d variant Hc).
  unfold int. by rewrite Hd.
Qed.

(** The effect of a line that carries an event of category [c]: two writes
    in the dictionary, the flag of [c] raised, the cursor of [c] moved; the
    other category and standard output are left alone. *)
Lemma process_line_event
    (g : globals) (line : string) (c : category) (time : Z) (variant : string) :
  event_of line = Some (c, time, variant) →
  let g' := (process_line g line).2 in
  input_events g' =
    <[time := variant]> (<[time - 1 := previous c g]> (input_events g))
  ∧ present c g' = true
  ∧ previous c g' = variant
  ∧ present (other c) g' = present (other c) g
  ∧ previous (other c) g' = previous (other c) g
  ∧ stdout g' = stdout g.
Proof.
  intros He. rewrite (process_line_event_Ret g line c time variant He).
  destruct c; simpl.
  - unfold tone_branch. simpl.
    destruct (collision_same time "Tone collision 1" (set_tone_event_present g))
      as (E1 & E2 & E3 & E4 & E5 & E6).
    destruct (collision_same (time - 1) "Tone collision 2"
                (collision time "Tone collision 1" (set_tone_event_present g)))
      as (F1 & F2 & F3 & F4 & F5 & F6).
    by rewrite F1, F2, F3, F4, F5, F6, E1, E2, E3, E4, E5, E6.
  - unfold tq_branch. simpl.
    destruct (collision_same time "TQ collision 1" (set_tq_event_present g))
      as (E1 & E2 & E3 & E4 & E5 & E6).
    destruct (collision_same (time - 1) "TQ collision 2"
                (collision time "TQ collision 1" (set_tq_event_present g)))
      as (F1 & F2 & F3 & F4 & F5 & F6).
    by rewrite F1, F2, F3, F4, F5, F6, E1, E2, E3, E4, E5, E6.
Qed.

(** A line without an event leaves the dictionary, both cursors and
    standard output alone, and does not lower a flag. *)
Lemma process_line_no_event (g : globals) (line : string) :
  event_of line = None →
  let g' := (process_line g line).2 in
  input_events g' = input_events g
  ∧ tone_event_previous g' = tone_event_previous g
  ∧ tq_event_previous g' = tq_event_previous g
  ∧ stdout g' = stdout g.
Proof.
  intros Hn. destruct (line_cases line)
    as [Hu | [(c & t & v & He) | (c & d & v & Hc & Hd)]].
  - destruct (process_line_unclassified g line Hu) as [e ->]. done.
  - congruence.
  - rewrite (process_line_overlong g line c d v Hc Hd). by destruct c.
Qed.

(** Keys are never removed from the dictionary. *)
Lemma process_line_keeps_keys (g : globals) (line : string) (k : Z) :
  is_Some (input_events g !! k) →
  is_Some (input_events (process_line g line).2 !! k).
Proof.
  intros Hk. destruct (event_of_None_or_Some line) as [Hn | (c & t & v & He)].
  - by rewrite (proj1 (process_line_no_event g line Hn)).
  - rewrite (proj1 (process_line_event g line c t v He)).
    rewrite !lookup_insert_is_Some. destruct (decide (t = k)); [by left |].
    right. split; [done |]. destruct (decide (t - 1 = k)); [by left | by right].
Qed.

Lemma read_loop_keeps_keys (lines : list string) (g : globals) (k : Z) :
  is_Some (input_events g !! k) →
  is_Some (input_events (read_loop lines g).2 !! k).
Proof.
  apply (read_loop_invariant (λ g, is_Some (input_events g !! k))).
  intros g' line. apply process_line_keeps_keys.
Qed.

(** After an event at [time], both [time] and [time - 1] are keys. *)
Lemma process_line_event_keys
    (g : globals) (line : string) (c : category) (time : Z) (variant : string) :
  event_of line = Some (c, time, variant) →
  input_events (process_line g line).2 !! time = Some variant
  ∧ is_Some (input_events (process_line g line).2 !! (time - 1)).
Proof.
  intros He. rewrite (proj1 (process_line_event g line c time variant He)).
  split; [by rewrite lookup_insert_eq |].
  rewrite lookup_insert_ne by lia. rewrite lookup_insert_eq. eauto.
Qed.

(** ** A loop that ends normally *)

Lemma times_parse_cons (line : string) (lines : list string) :
  times_parse (line :: lines) ↔
    (∀ c group1 group2, classified line = Some (c, group1, group2) →
                        too_long group1 = false)
    ∧ times_parse lines.
Proof.
  unfold times_parse. rewrite Forall_cons.
  destruct (classified line) as [[[c d] v]|]; split; intros [H ?];
    split; try done.
  - by intros ??? [= <- <- <-].
  - by eapply H.
Qed.

(** The loop ends normally exactly when every time of the input can be
    converted; otherwise it raises [ValueError]. *)
Lemma read_loop_normal (lines : list string) (g : globals) :
  (read_loop lines g).1 = Ret () ↔ times_parse lines.
Proof.
  revert g. induction lines as [|line lines IH]; intros g.
  - split; [constructor | done].
  - rewrite read_loop_cons, times_parse_cons.
    destruct (line_cases line)
      as [Hu | [(c & t & v & He) | (c & d & v & Hc & Hd)]].
    + destruct (process_line_unclassified g line Hu) as [e ->].
      rewrite IH. split; [|tauto]. intros H. split; [|done]. congruence.
    + rewrite (process_line_event_Ret g line c t v He). rewrite IH.
      split; [|tauto]. intros H. split; [|done].
      destruct (event_of_classified line c t v He) as (d & Hc & Hd & _).
      intros c' d' v' Hc'. congruence.
    + rewrite (process_line_overlong g line c d v Hc Hd). simpl.
      split; [done |]. intros [H _]. specialize (H c d v Hc). congruence.
Qed.

Lemma read_loop_raises (lines : list string) (g : globals) :
  ¬ times_parse lines → (read_loop lines g).1 = Raise ValueError.
Proof.
  revert g. induction lines as [|line lines IH]; intros g Hn.
  - destruct Hn. constructor.
  - rewrite read_loop_cons.
    destruct (line_cases line)
      as [Hu | [(c & t & v & He) | (c & d & v & Hc & Hd)]].
    + destruct (process_line_unclassified g line Hu) as [e ->].
      apply IH. intros H. apply Hn, times_parse_cons. split; [|done].
      congruence.
    + rewrite (process_line_event_Ret g line c t v He). apply IH.
      intros H. apply Hn, times_parse_cons. split; [|done].
      destruct (event_of_classified line c t v He) as (d & Hc & Hd & _).
      intros c' d' v' Hc'. congruence.
    + by rewrite (process_line_overlong g line c d v Hc Hd).
Qed.

Lemma times_parse_app (l1 l2 : list string) :
  times_parse (l1 ++ l2) ↔ times_parse l1 ∧ times_parse l2.
Proof. apply Forall_app. Qed.

Lemma times_parse_event
    (line : string) (c : category) (time : Z) (variant : string) :
  event_of line = Some (c, time, variant) → times_parse [line].
Proof.
  intros (d & Hc & Hd & _)%event_of_classified.
  apply times_parse_cons. split; [|by apply Forall_nil].
  intros c' d' v' Hc'. congruence.
Qed.

(** The state after a loop that ends normally, line by line. *)
Lemma read_loop_cons_normal (line : string) (lines : list string) (g : globals) :
  times_parse (line :: lines) →
  process_line g line = (Ret (), (process_line g line).2)
  ∧ read_loop (line :: lines) g = read_loop lines (process_line g line).2.
Proof.
  intros H%(read_loop_normal _ g).
  destruct (read_loop_cons_Ret line lines g H) as (g' & Hp & Hl).
  rewrite Hl, Hp. done.
Qed.

Lemma read_loop_app_normal (l1 l2 : list string) (g : globals) :
  times_parse l1 →
  read_loop (l1 ++ l2) g = read_loop l2 (read_loop l1 g).2.
Proof.
  intros H%(read_loop_normal _ g). rewrite read_loop_app.
  by destruct (read_loop l1 g) as [[[]|e] g'].
Qed.

(** After a loop that went through an event of the input, the slot before
    the event is a key. *)
Lemma read_loop_event_slot
    (lines : list string) (line : string) (c : category) (time : Z)
    (variant : string) (g : globals) :
  times_parse lines →
  line ∈ lines → event_of line = Some (c, time, variant) →
  is_Some (input_events (read_loop lines g).2 !! (time - 1)).
Proof.
  intros Hp Hin He. apply list_elem_of_split in Hin as (l1 & l2 & ->).
  apply times_parse_app in Hp as [Hp1 Hp2].
  rewrite (read_loop_app_normal _ _ _ Hp1).
  destruct (read_loop_cons_normal line l2 (read_loop l1 g).2 Hp2) as [_ ->].
  apply read_loop_keeps_keys.
  exact (proj2 (process_line_event_keys _ line c time variant He)).
Qed.

(** ** Two events at the same time *)

(** The error stream after a Tone event whose two slots are both taken. *)
Lemma tone_branch_two_collisions (g : globals) (time : Z) (event : string) :
  is_Some (input_events g !! time) →
  is_Some (input_events g !! (time - 1)) →
  stderr (tone_branch time event g) =
    stderr g ++ ["Tone collision 1"; "Tone collision 2"].
Proof.
  intros H1 H2. unfold tone_branch. simpl.
  unfold collision at 1. rewrite decide_True.
  - simpl. unfold collision. rewrite decide_True by done. simpl.
    by rewrite <- app_assoc.
  - unfold collision. by rewrite decide_True by done.
Qed.

(** The loop only adds to the error stream. *)
Lemma process_line_stderr (g : globals) (line : string) :
  ∃ more, stderr (process_line g line).2 = stderr g ++ more.
Proof.
  destruct (line_cases line)
    as [Hu | [(c & t & v & He) | (c & d & v & Hc & Hd)]].
  - unfold classified, classify in Hu. unfold process_line.
    destruct (line_re line) as [[d t]|]; [|exists []; simpl; by rewrite app_nil_r].
    destruct (re_match "CW_DEBUG_EVENT_TONE" t); [done |].
    destruct (re_match "CW_DEBUG_EVENT_TQ" t); [done |]. simpl. eauto.
  - rewrite (process_line_event_Ret g line c t v He).
    destruct c; simpl; unfold collision; repeat case_decide; simpl;
      rewrite <- ?app_assoc; eauto; exists []; by rewrite app_nil_r.
  - rewrite (process_line_overlong g line c d v Hc Hd).
    exists []. rewrite app_nil_r. by destruct c.
Qed.

Lemma read_loop_stderr (lines : list string) (g : globals) :
  ∃ more, stderr (read_loop lines g).2 = stderr g ++ more.
Proof.
  apply (read_loop_invariant (λ g', ∃ more, stderr g' = stderr g ++ more)).
  - intros g' line [more Hg']. destruct (process_line_stderr g' line) as [m ->].
    rewrite Hg', <- app_assoc. eauto.
  - exists []. by rewrite app_nil_r.
Qed.

Lemma event_times_cons (line : string) (lines : list string) :
  event_times (line :: lines) =
    match event_of line with
    | Some (_, t, _) => t :: event_times lines
    | None => event_times lines
    end.
Proof.
  unfold event_times. simpl. by destruct (event_of line) as [[[c t] v]|].
Qed.

(** An entry stays as long as no event is filed at its slot or at the slot
    after it. *)
Lemma read_loop_keeps_entry (lines : list string) (g : globals) (k : Z) :
  Forall (λ t, t ≠ k ∧ t ≠ k + 1) (event_times lines) →
  input_events (read_loop lines g).2 !! k = input_events g !! k.
Proof.
  revert g. induction lines as [|line lines IH]; intros g Ht; [done |].
  rewrite event_times_cons in Ht. rewrite read_loop_cons.
  assert (Hk : input_events (process_line g line).2 !! k = input_events g !! k
               ∧ Forall (λ t, t ≠ k ∧ t ≠ k + 1) (event_times lines)).
  { destruct (event_of line) as [[[c t] v]|] eqn:He.
    - apply Forall_cons in Ht as [[H1 H2] Ht]. split; [|done].
      rewrite (proj1 (process_line_event g line c t v He)).
      by rewrite !lookup_insert_ne by lia.
    - split; [|done]. by rewrite (proj1 (process_line_no_event g line He)). }
  destruct Hk as [Hk Ht'].
  destruct (process_line g line) as [[[]|e] g']; simpl in *; [|done].
  by rewrite IH.
Qed.

(** C4 (as amended: the loop reaches the second event, that is, no line
    before it has a time of more than 4300 digits; the entry is read right
    after the second event, or after the whole loop when no later event is
    filed at [time] or at [time + 1]).  Two Tone events at the same time
    [time], anywhere in the input: when the loop reaches the second, it
    reports the collision on the slot [time] (and the one on the slot
    [time - 1], taken as well), and after the line the entry at [time] is
    the variant of the second event; the entry is still there when the loop
    ends, with the two diagnostics in the error stream. *)
Theorem same_time_tone_collision
    (before between after : list string) (first second : string)
    (time : Z) (variant1 variant2 : string) :
  event_of first = Some (Tone, time, variant1) →
  event_of second = Some (Tone, time, variant2) →
  times_parse (before ++ between) →
  Forall (λ t, t ≠ time ∧ t ≠ time + 1) (event_times after) →
  let g := (read_loop (before ++ first :: between) initial).2 in
  let g' := (process_line g second).2 in
  let g'' :=
    (read_loop (before ++ first :: between ++ second :: after) initial).2 in
  read_loop (before ++ first :: between ++ [second]) initial = (Ret (), g')
  ∧ stderr g' = stderr g ++ ["Tone collision 1"; "Tone collision 2"]
  ∧ input_events g' !! time = Some variant2
  ∧ input_events g'' !! time = Some variant2
  ∧ ∃ more,
      stderr g'' = stderr g ++ ["Tone collision 1"; "Tone collision 2"] ++ more.
Proof.
  intros H1 H2 [Hb Hm]%times_parse_app Ha g g' g''.
  assert (Hp : times_parse (before ++ first :: between)).
  { apply times_parse_app. split; [done |].
    apply (times_parse_app [first] between). split; [|done].
    by eapply times_parse_event. }
  assert (Hk : is_Some (input_events g !! time)
               ∧ is_Some (input_events g !! (time - 1))).
  { subst g. rewrite (read_loop_app_normal _ _ _ Hb).
    assert (Hfm : times_parse (first :: between)).
    { apply (times_parse_app [first] between). split; [|done].
      by eapply times_parse_event. }
    destruct (read_loop_cons_normal first between (read_loop before initial).2
                Hfm) as [_ ->].
    destruct (process_line_event_keys (read_loop before initial).2 first
                Tone time variant1 H1) as [Ha' Hb'].
    split; apply read_loop_keeps_keys; eauto. }
  destruct Hk as [Hk1 Hk2].
  assert (Hs : process_line g second = (Ret (), g')).
  { apply res_eta. by rewrite (process_line_event_Ret g second Tone time
                                 variant2 H2). }
  assert (He : stderr g' = stderr g ++ ["Tone collision 1"; "Tone collision 2"]).
  { subst g'. rewrite (process_line_event_Ret g second Tone time variant2 H2).
    cbn [snd set_present]. by rewrite tone_branch_two_collisions. }
  assert (Ht : input_events g' !! time = Some variant2).
  { exact (proj1 (process_line_event_keys g second Tone time variant2 H2)). }
  assert (Hl : ∀ rest,
             read_loop (before ++ first :: between ++ second :: rest) initial
             = read_loop rest g').
  { intros rest.
    replace (before ++ first :: between ++ second :: rest)
      with ((before ++ first :: between) ++ second :: rest)
      by (by rewrite <- app_assoc).
    rewrite (read_loop_app_normal _ _ _ Hp). fold g.
    rewrite read_loop_cons. by rewrite Hs. }
  split_and!; [by rewrite Hl | done | done | |].
  - subst g''. rewrite Hl. by rewrite read_loop_keeps_entry.
  - subst g''. rewrite Hl. destruct (read_loop_stderr after g') as [more ->].
    exists more. by rewrite He, <- app_assoc.
Qed.

Lemma same_time_tone_collision_witness :
  let first := event_line "7" "CW_DEBUG_EVENT_TONE_HIGH" in
  let second := event_line "07" "CW_DEBUG_EVENT_TONE_LOW" in
  let after := [event_line "9" "CW_DEBUG_EVENT_TONE_MID"; long_tone_line] in
  let g := (read_loop (two_tones ++ first :: tone_then_tq) initial).2 in
  let g' := (process_line g second).2 in
  let g'' :=
    (read_loop (two_tones ++ first :: tone_then_tq ++ second :: after)
       initial).2 in
  event_of first = Some (Tone, 7, "CW_DEBUG_EVENT_TONE_HIGH")
  ∧ event_of second = Some (Tone, 7, "CW_DEBUG_EVENT_TONE_LOW")
  ∧ times_parse (two_tones ++ tone_then_tq)
  ∧ Forall (λ t, t ≠ 7 ∧ t ≠ 7 + 1) (event_times after)
  ∧ read_loop (two_tones ++ first :: tone_then_tq ++ [second]) initial
    = (Ret (), g')
  ∧ stderr g' = stderr g ++ ["Tone collision 1"; "Tone collision 2"]
  ∧ input_events g' !! 7 = Some "CW_DEBUG_EVENT_TONE_LOW"
  ∧ input_events g'' !! 7 = Some "CW_DEBUG_EVENT_TONE_LOW"
  ∧ ∃ more,
      stderr g'' = stderr g ++ ["Tone collision 1"; "Tone collision 2"] ++ more.
Proof.
  assert (Hp : times_parse (two_tones ++ tone_then_tq)).
  { apply (bool_decide_unpack _). by vm_compute. }
  assert (Ha : Forall (λ t, t ≠ 7 ∧ t ≠ 7 + 1)
                 (event_times [event_line "9" "CW_DEBUG_EVENT_TONE_MID";
                               long_tone_line])).
  { apply (bool_decide_unpack _). by vm_compute. }
  do 2 (split; [reflexivity |]). split; [exact Hp |]. split; [exact Ha |].
  exact (same_time_tone_collision two_tones tone_then_tq
           [event_line "9" "CW_DEBUG_EVENT_TONE_MID"; long_tone_line]
           (event_line "7" "CW_DEBUG_EVENT_TONE_HIGH")
           (event_line "07" "CW_DEBUG_EVENT_TONE_LOW")
           7 "CW_DEBUG_EVENT_TONE_HIGH" "CW_DEBUG_EVENT_TONE_LOW"
           eq_refl eq_refl Hp Ha).
Defined.

(** C4, as it is worded.  After two Tone events at 7 and a TQ event at 8
    the entry at 7 is the synthesized predecessor of the TQ event, not the
    variant of the second Tone event; and two Tone events at one time of
    4301 digits never reach the table: the loop ends with [ValueError] at
    the first, with no diagnostic of a collision. *)
Lemma same_time_entry_overwritten :
  let g := (read_loop same_time_then_tq initial).2 in
  event_times same_time_then_tq = [7; 7; 8]
  ∧ input_events g !! 7 = Some "CW_DEBUG_EVENT_TQ_STILL_EMPTY"
  ∧ input_events g !! 7 ≠ Some "CW_DEBUG_EVENT_TONE_LOW"
  ∧ read_loop [long_tone_line; long_tone_line] initial
    = (Raise ValueError, set_tone_event_present initial)
  ∧ stderr (read_loop [long_tone_line; long_tone_line] initial).2 = []
  ∧ input_events (read_loop [long_tone_line; long_tone_line] initial).2 = ∅.
Proof. by vm_compute. Qed.

(** ** Times are not negative, keys are at least -1 *)

Lemma is_digit_value (c : ascii) : is_digit c = true → 0 ≤ digit_value c ≤ 9.
Proof.
  unfold is_digit, digit_value.
  intros [H1%Nat.leb_le H2%Nat.leb_le]%andb_true_iff. lia.
Qed.

Lemma int_acc_nonneg (s : string) (acc : Z) :
  string_forall is_digit s = true → 0 ≤ acc → 0 ≤ int_acc acc s.
Proof.
  revert acc. induction s as [|c s IH]; intros acc; simpl; [done |].
  intros [Hc Hs]%andb_true_iff Hacc. apply IH; [done |].
  pose proof (is_digit_value c Hc). lia.
Qed.

Lemma line_re_digits (line group1 group2 : string) :
  line_re line = Some (group1, group2) → string_forall is_digit group1 = true.
Proof.
  unfold line_re. destruct (strip_prefix _ line) as [r|]; [|done].
  destruct (span is_digit r) as [ds r1] eqn:Hd.
  apply span_split in Hd as (_ & Hds & _).
  destruct ds as [|c0 ds]; [done |]. destruct r1 as [|c r']; [done |].
  destruct (Ascii.eqb c TAB); [|done].
  destruct (span is_dot r') as [[|c1 tok] r2]; [done |].
  by intros [= <- _].
Qed.

Lemma event_of_time_nonneg
    (line : string) (c : category) (time : Z) (variant : string) :
  event_of line = Some (c, time, variant) → 0 ≤ time.
Proof.
  intros (d & Hre & _ & <- & _)%event_of_inv.
  apply int_acc_nonneg; [by eapply line_re_digits | done].
Qed.

Lemma process_line_keys_from (g : globals) (line : string) :
  keys_from (-1) g → keys_from (-1) (process_line g line).2.
Proof.
  intros Hg k. destruct (event_of_None_or_Some line) as [Hn | (c & t & v & He)].
  - rewrite (proj1 (process_line_no_event g line Hn)). apply Hg.
  - rewrite (proj1 (process_line_event g line c t v He)).
    pose proof (event_of_time_nonneg line c t v He).
    rewrite !lookup_insert_is_Some. intros [<- | [_ [<- | [_ Hk]]]]; [lia.. |].
    by apply Hg.
Qed.

Lemma read_loop_keys_from (lines : list string) (g : globals) :
  keys_from (-1) g → keys_from (-1) (read_loop lines g).2.
Proof.
  apply (read_loop_invariant (keys_from (-1))).
  intros g' line. apply process_line_keys_from.
Qed.

Lemma initial_keys_from : keys_from (-1) initial.
Proof. intros k [v Hv]. simpl in Hv. by rewrite lookup_empty in Hv. Qed.

(** ** Every key can be printed *)

Lemma int_acc_uint (d : Decimal.uint) (acc : positive) :
  int_acc (Z.pos acc) (NilEmpty.string_of_uint d)
  = Z.pos (Pos.of_uint_acc d acc).
Proof.
  revert acc. induction d; intros acc; simpl; [done | ..];
    rewrite <- IHd; f_equal;
    try (match goal with
         | |- context [digit_value ?c] =>
             let v := eval vm_compute in (digit_value c) in
             change (digit_value c) with v
         end; lia).
Qed.

Lemma int_acc_zero_uint (d : Decimal.uint) :
  int_acc 0 (NilEmpty.string_of_uint d) = Z.of_N (Pos.of_uint d).
Proof.
  induction d; simpl; [done | exact IHd | ..];
    match goal with
    | |- int_acc ?z _ = _ =>
        let p := eval vm_compute in z in change z with p
    end; apply int_acc_uint.
Qed.

Lemma uint_digits (d : Decimal.uint) :
  string_forall is_digit (NilEmpty.string_of_uint d) = true.
Proof. induction d; simpl; done. Qed.

Lemma str_nonneg (n : Z) :
  0 ≤ n → ∃ d, d ≠ Decimal.Nil ∧ str n = NilEmpty.string_of_uint d
               ∧ Z.of_N (Pos.of_uint d) = n.
Proof.
  intros Hn. unfold str. destruct n as [|p|p]; [| |lia].
  - by exists (Decimal.D0 Decimal.Nil).
  - exists (Pos.to_uint p). pose proof (DecimalPos.Unsigned.to_uint_nonnil p).
    split_and!; [done | | by rewrite DecimalPos.Unsigned.of_to].
    simpl. by destruct (Pos.to_uint p).
Qed.

(** The accumulator is the high part of the value. *)
Lemma int_acc_split (s : string) (acc : Z) :
  int_acc acc s = acc * 10 ^ Z.of_nat (String.length s) + int_value s.
Proof.
  unfold int_value. revert acc. induction s as [|c s IH]; intros acc.
  - simpl. lia.
  - cbn [int_acc String.length]. rewrite (IH (10 * acc + digit_value c)).
    rewrite (IH (10 * 0 + digit_value c)).
    rewrite Nat2Z.inj_succ, Z.pow_succ_r by lia. lia.
Qed.

(** A run of [n] digits is below [10 ^ n]. *)
Lemma int_value_bound (s : string) :
  string_forall is_digit s = true →
  0 ≤ int_value s < 10 ^ Z.of_nat (String.length s).
Proof.
  induction s as [|c s IH]; [by simpl |].
  cbn [string_forall]. intros [Hc Hs]%andb_true_iff.
  unfold int_value. cbn [int_acc String.length]. rewrite int_acc_split.
  rewrite Nat2Z.inj_succ, Z.pow_succ_r by lia.
  pose proof (is_digit_value c Hc). specialize (IH Hs). 
  assert (0 < 10 ^ Z.of_nat (String.length s)) by (apply Z.pow_pos_nonneg; lia).
  nia.
Qed.

(** The decimal text of a positive number does not start with a zero. *)
Lemma to_uint_head (p : positive) (d : Decimal.uint) :
  Pos.to_uint p ≠ Decimal.D0 d.
Proof.
  intros E. pose proof (DecimalPos.Unsigned.to_of (Pos.to_uint p)) as H.
  rewrite DecimalPos.Unsigned.of_to in H. simpl in H.
  unfold Decimal.unorm in H.
  destruct (Decimal.nzhead (Pos.to_uint p)) eqn:Hn;
    rewrite H in E; try discriminate.
  - by apply (DecimalPos.Unsigned.to_uint_nonzero p).
  - by apply (DecimalFacts.nzhead_nonzero (Pos.to_uint p) u).
Qed.

(** A text of [n + 1] digits that does not start with a zero is worth at least [10 ^ n]. *)
Lemma uint_lower (u : Decimal.uint) :
  u ≠ Decimal.Nil → (∀ d, u ≠ Decimal.D0 d) →
  10 ^ (Z.of_nat (String.length (NilEmpty.string_of_uint u)) - 1)
  ≤ int_value (NilEmpty.string_of_uint u).
Proof.
  intros Hnil Hz.
  destruct u; [done | by destruct (Hz u) | ..];
    cbn [NilEmpty.string_of_uint String.length]; unfold int_value;
    cbn [int_acc]; rewrite int_acc_split;
    match goal with
    | |- context [digit_value ?c] =>
        let v := eval vm_compute in (digit_value c) in
        change (digit_value c) with v
    end;
    rewrite Nat2Z.inj_succ;
    replace (Z.succ (Z.of_nat (String.length (NilEmpty.string_of_uint u))) - 1)
      with (Z.of_nat (String.length (NilEmpty.string_of_uint u))) by lia;
    pose proof (int_value_bound _ (uint_digits u));
    assert (0 < 10 ^ Z.of_nat (String.length (NilEmpty.string_of_uint u)))
      by (apply Z.pow_pos_nonneg; lia);
    nia.
Qed.

(** A number below [10 ^ m] is written with at most [m] digits. *)
Lemma str_length (n : Z) (m : nat) :
  0 ≤ n < 10 ^ Z.of_nat m → (1 ≤ m)%nat → (String.length (str n) ≤ m)%nat.
Proof.
  intros [H0 Hm] H1. unfold str. destruct n as [|p|p]; [simpl; lia | | lia].
  assert (Hs : NilZero.string_of_int (Z.to_int (Z.pos p))
               = NilEmpty.string_of_uint (Pos.to_uint p)).
  { simpl. pose proof (DecimalPos.Unsigned.to_uint_nonnil p).
    by destruct (Pos.to_uint p). }
  rewrite Hs.
  pose proof (uint_lower (Pos.to_uint p)
                (DecimalPos.Unsigned.to_uint_nonnil p) (to_uint_head p)) as Hl.
  unfold int_value in Hl. rewrite int_acc_zero_uint in Hl.
  rewrite DecimalPos.Unsigned.of_to in Hl. simpl in Hl.
  set (L := String.length (NilEmpty.string_of_uint (Pos.to_uint p))) in *.
  destruct (decide (L ≤ m)%nat) as [|Hgt]; [done |].
  assert (10 ^ Z.of_nat m ≤ 10 ^ (Z.of_nat L - 1)).
  { apply Z.pow_le_mono_r; lia. }
  lia.
Qed.

Lemma in_range_minus_one : in_range (-1).
Proof. reflexivity. Qed.

Lemma in_range_bound (n : Z) (m : nat) :
  0 ≤ n < 10 ^ Z.of_nat m → (m ≤ 4300)%nat → in_range n.
Proof.
  intros Hn Hm. unfold in_range, too_long. apply Z.ltb_ge.
  rewrite Z.abs_eq by lia. destruct m as [|m'].
  - simpl in Hn. assert (n = 0) as -> by lia. by vm_compute.
  - pose proof (str_length n (S m') Hn ltac:(lia)). lia.
Qed.

(** The time of an event and the slot before it can both be printed. *)
Lemma event_of_in_range
    (line : string) (c : category) (time : Z) (variant : string) :
  event_of line = Some (c, time, variant) →
  in_range time ∧ in_range (time - 1).
Proof.
  intros (d & Hre & Hd & <- & _)%event_of_inv.
  pose proof (int_value_bound d (line_re_digits _ _ _ Hre)) as Hb.
  assert (Hm : (String.length d ≤ 4300)%nat).
  { unfold too_long in Hd. apply Z.ltb_ge in Hd. lia. }
  split; [by apply (in_range_bound _ (String.length d)) |].
  destruct (decide (int_value d = 0)) as [-> | Hz].
  - apply in_range_minus_one.
  - apply (in_range_bound _ (String.length d)); [lia | done].
Qed.

Lemma process_line_in_range (g : globals) (line : string) :
  (∀ k, is_Some (input_events g !! k) → in_range k) →
  ∀ k, is_Some (input_events (process_line g line).2 !! k) → in_range k.
Proof.
  intros Hg k. destruct (event_of_None_or_Some line) as [Hn | (c & t & v & He)].
  - rewrite (proj1 (process_line_no_event g line Hn)). apply Hg.
  - rewrite (proj1 (process_line_event g line c t v He)).
    destruct (event_of_in_range line c t v He) as [H1 H2].
    rewrite !lookup_insert_is_Some. intros [<- | [_ [<- | [_ Hk]]]]; [done.. |].
    by apply Hg.
Qed.

(** Every key the reading loop files has at most 4300 digits: the printing
    pass can write each of them. *)
Lemma read_loop_in_range (lines : list string) (k : Z) :
  is_Some (input_events (read_loop lines initial).2 !! k) → in_range k.
Proof.
  revert k.
  apply (read_loop_invariant
           (λ g, ∀ k, is_Some (input_events g !! k) → in_range k)).
  - apply process_line_in_range.
  - intros k [v Hv]. simpl in Hv. by rewrite lookup_empty in Hv.
Qed.

(** ** Sorting the keys *)

Lemma elem_of_keys (m : gmap Z string) (k : Z) :
  k ∈ keys m ↔ is_Some (m !! k).
Proof.
  unfold keys. rewrite list_elem_of_fmap. split.
  - intros ([k' v] & -> & Hkv). apply elem_of_map_to_list in Hkv. eauto.
  - intros [v Hv]. exists (k, v). by rewrite elem_of_map_to_list.
Qed.

Lemma sorted_spec (l : list Z) :
  StronglySorted Z.le (sorted l) ∧ sorted l ≡ₚ l.
Proof.
  split; [apply (StronglySorted_merge_sort Z.le) | apply merge_sort_Permutation].
Qed.

(** The least element comes first. *)
Lemma sorted_head (l : list Z) (low : Z) :
  low ∈ l → (∀ k, k ∈ l → low ≤ k) → ∃ tl, sorted l = low :: tl.
Proof.
  intros Hin Hlow. destruct (sorted_spec l) as [Hs Hp].
  destruct (sorted l) as [|x tl] eqn:E.
  - rewrite <- Hp in Hin. by apply elem_of_nil in Hin.
  - exists tl. f_equal. apply StronglySorted_inv in Hs as [_ Hx].
    assert (low ≤ x) by (apply Hlow; rewrite <- Hp; left).
    rewrite <- Hp in Hin. apply elem_of_cons in Hin as [-> | Hin]; [done |].
    rewrite Forall_forall in Hx. specialize (Hx low Hin). lia.
Qed.

(** Two enumerations of the same keys are sorted into the same list. *)
Lemma sorted_Permutation (l1 l2 : list Z) : l1 ≡ₚ l2 → sorted l1 = sorted l2.
Proof.
  intros Hp. destruct (sorted_spec l1) as [S1 P1], (sorted_spec l2) as [S2 P2].
  apply (StronglySorted_unique Z.le); [done.. |]. by rewrite P1, P2.
Qed.

(** ** Cells *)

Lemma same_table_refl (g : globals) : same_table g g.
Proof. by repeat split. Qed.

Lemma same_table_trans (g1 g2 g3 : globals) :
  same_table g1 g2 → same_table g2 g3 → same_table g1 g3.
Proof.
  intros (A1 & A2 & A3 & A4) (B1 & B2 & B3 & B4).
  repeat split; congruence.
Qed.

Lemma same_table_header (g g' : globals) :
  same_table g g' → header_cells g' = header_cells g.
Proof. intros (_ & H1 & H2 & _). unfold header_cells. by rewrite H1, H2. Qed.

Lemma event_values_codes (k v : string) :
  event_values !! k = Some v → v ∈ ["0"; "1"; "2"].
Proof.
  intros H. apply elem_of_list_to_map_2 in H.
  repeat (apply elem_of_cons in H as [[= _ ->] | H];
          [rewrite !elem_of_cons; auto |]).
  by apply elem_of_nil in H.
Qed.

Lemma event_values_clean (k v : string) :
  event_values !! k = Some v → clean v = true.
Proof.
  intros H%event_values_codes.
  repeat (apply elem_of_cons in H as [-> | H]; [done |]).
  by apply elem_of_nil in H.
Qed.

Lemma uint_clean (d : Decimal.uint) :
  clean (NilEmpty.string_of_uint d) = true.
Proof. induction d; simpl; done. Qed.

Lemma str_clean (n : Z) : clean (str n) = true.
Proof.
  unfold str. destruct (Z.to_int n) as [d | d]; simpl.
  - destruct d; try done; apply (uint_clean (_ d)) || apply uint_clean.
  - destruct d; try done; apply (uint_clean (_ d)) || apply uint_clean.
Qed.

Lemma tone_cell_outcome (time : Z) (g : globals) :
  cell_outcome g (tone_cell time g).
Proof.
  unfold tone_cell, bind, input_event, event_value, gets, print,
    set_tone_event_previous.
  destruct (input_events g !! time) as [entry|]; [|constructor].
  destruct (re_match "CW_DEBUG_EVENT_TONE" entry).
  - destruct (event_values !! entry) as [code|] eqn:Hc; [|constructor].
    apply (cell_written g code); [by eapply event_values_clean | done |].
    by repeat split.
  - destruct (event_values !! tone_event_previous g) as [code|] eqn:Hc;
      [|constructor].
    apply (cell_written g code); [by eapply event_values_clean | done |].
    by repeat split.
Qed.

Lemma tq_cell_outcome (time : Z) (g : globals) :
  cell_outcome g (tq_cell time g).
Proof.
  unfold tq_cell, bind, input_event, event_value, gets, print,
    set_tq_event_previous.
  destruct (input_events g !! time) as [entry|]; [|constructor].
  destruct (re_match "CW_DEBUG_EVENT_TQ" entry).
  - destruct (event_values !! entry) as [code|] eqn:Hc; [|constructor].
    apply (cell_written g code); [by eapply event_values_clean | done |].
    by repeat split.
  - destruct (event_values !! tq_event_previous g) as [code|] eqn:Hc;
      [|constructor].
    apply (cell_written g code); [by eapply event_values_clean | done |].
    by repeat split.
Qed.

(** A cell whose entry is an event of its own category with a known name is
    written. *)
Lemma cell_known (c : category) (time : Z) (g : globals) (v : string) :
  input_events g !! time = Some v → known_entry c v →
  (cell c time g).1 = Ret ().
Proof.
  intros Hv [Hc [code Hcode]]. unfold classify in Hc.
  destruct c; unfold cell, tone_cell, tq_cell, bind, input_event, event_value;
    rewrite Hv.
  - destruct (re_match "CW_DEBUG_EVENT_TONE" v); [by rewrite Hcode |].
    by destruct (re_match "CW_DEBUG_EVENT_TQ" v).
  - destruct (re_match "CW_DEBUG_EVENT_TONE" v); [done |].
    destruct (re_match "CW_DEBUG_EVENT_TQ" v); [by rewrite Hcode | done].
Qed.

(** ** Rows *)

Lemma print_outcome (text : string) (g : globals) :
  ∃ g', print text g = (Ret (), g')
        ∧ stdout g' = stdout g +:+ text ∧ same_table g g'.
Proof. eexists. split; [reflexivity |]. by repeat split. Qed.

(** A column that is printed only when its flag is set. *)
Lemma guarded_cell (flag : globals → bool) (m : M unit) (g : globals) :
  (let! b := gets flag in when b m) g = if flag g then m g else (Ret (), g).
Proof. unfold bind, gets, when, ret. by destruct (flag g). Qed.

Lemma cells_text_snoc (cells : list string) (c : string) :
  cells ≠ [] → cells_text (cells ++ [c]) = cells_text cells +:+ tab +:+ c.
Proof.
  induction cells as [|x [|y cells] IH]; [done | done |]. intros _.
  change (cells_text ((x :: y :: cells) ++ [c]))
    with (x +:+ tab +:+ cells_text ((y :: cells) ++ [c])).
  rewrite IH by done.
  change (cells_text (x :: y :: cells))
    with (x +:+ tab +:+ cells_text (y :: cells)).
  by rewrite !append_assoc.
Qed.

(** One column of a row: after the cells [cells], the guarded cell either
    raises and writes nothing, or adds its cell when its flag is set. *)
Lemma column_stage
    (flag : globals → bool) (m : M unit) (g g0 : globals) (cells : list string) :
  cells ≠ [] →
  cell_outcome g0 (m g0) →
  stdout g0 = stdout g +:+ cells_text cells →
  ∃ r g1, (let! b := gets flag in when b m) g0 = (r, g1) ∧
    ((∃ e, r = Raise e ∧ g1 = g0)
     ∨ (r = Ret () ∧ same_table g0 g1
        ∧ ∃ extra, Forall (λ c, clean c = true) extra
            ∧ length extra = (if flag g0 then 1 else 0)%nat
            ∧ stdout g1 = stdout g +:+ cells_text (cells ++ extra))).
Proof.
  intros Hne Hm S0. rewrite guarded_cell. destruct (flag g0).
  - destruct (m g0) as [r g1]. exists r, g1. split; [done |].
    inversion Hm as [code g1' Hcode S1 T1 | e]; subst; [right | left; eauto].
    split_and!; [done.. |]. exists [code]. split_and!; [by repeat constructor | done |].
    rewrite cells_text_snoc, S1, S0 by done. by rewrite !append_assoc.
  - exists (Ret ()), g0. split; [done |]. right.
    split_and!; [done | apply same_table_refl |].
    exists []. by rewrite app_nil_r.
Qed.

(** The time of a row is written unless it has more than 4300 digits. *)
Lemma print_int_in_range (n : Z) : in_range n → print_int n = print (str n).
Proof. intros H. unfold print_int. by rewrite H. Qed.

Lemma print_int_cases (n : Z) (g : globals) :
  (¬ in_range n ∧ print_int n g = (Raise ValueError, g))
  ∨ print_int n g = print (str n) g.
Proof.
  unfold print_int, in_range. destruct (too_long _); [by left | by right].
Qed.

Lemma print_row_outcome (time : Z) (g : globals) :
  row_outcome time g (print_row time g).
Proof.
  pose proof (str_clean time) as Hstr. unfold print_row.
  destruct (print_int_cases time g) as [[Hr E] | E].
  { rewrite (bind_Raise _ _ _ _ _ E). by apply row_not_started. }
  destruct (print_outcome (str time) g) as (g0 & E0 & S0 & T0).
  rewrite E0 in E. rewrite (bind_Ret _ _ _ _ _ E).
  destruct (column_stage tone_event_present (tone_cell time) g g0 [str time])
    as (r1 & g1 & E1 & [(e & -> & ->) | (-> & T1 & x1 & C1 & L1 & S1)]);
    [done | apply tone_cell_outcome | done | |].
  { rewrite (bind_Raise _ _ _ _ _ E1).
    by apply (row_raised time g e []). }
  rewrite (bind_Ret _ _ _ _ _ E1).
  destruct (column_stage tq_event_present (tq_cell time) g g1 ([str time] ++ x1))
    as (r2 & g2 & E2 & [(e & -> & ->) | (-> & T2 & x2 & C2 & L2 & S2)]);
    [done | apply tq_cell_outcome | done | |].
  { rewrite (bind_Raise _ _ _ _ _ E2).
    apply (row_raised time g e x1); [done.. |]. by eapply same_table_trans. }
  rewrite (bind_Ret _ _ _ _ _ E2).
  destruct (print_outcome nl g2) as (g3 & E3 & S3 & T3). rewrite E3.
  apply (row_written time g (x1 ++ x2)).
  - by apply Forall_app.
  - destruct T0 as (_ & A0 & B0 & _), T1 as (_ & A1 & B1 & _).
    simpl. rewrite length_app, L1, L2, B1, A0, B0. unfold header_cells.
    by destruct (tone_event_present g), (tq_event_present g).
  - rewrite S3, S2. unfold row_text. by rewrite <- app_assoc, !append_assoc.
  - repeat (eapply same_table_trans; [eassumption |]). apply same_table_refl.
Qed.

(** ** The loop over the keys *)

Lemma string_forall_app (f : ascii → bool) (a b : string) :
  string_forall f (a +:+ b) = string_forall f a && string_forall f b.
Proof.
  induction a as [|c a IH]; [done |].
  rewrite append_cons. simpl. by rewrite IH, andb_assoc.
Qed.

Lemma clean_no_nl (s : string) : clean s = true → string_forall is_dot s = true.
Proof.
  unfold clean. induction s as [|c s IH]; simpl; [done |].
  intros [[_ Hc]%andb_true_iff Hs]%andb_true_iff.
  apply andb_true_iff. split; [done | by apply IH].
Qed.

Lemma clean_no_tab (s : string) :
  clean s = true → string_forall (λ c, negb (Ascii.eqb c TAB)) s = true.
Proof.
  unfold clean. induction s as [|c s IH]; simpl; [done |].
  intros [[Hc _]%andb_true_iff Hs]%andb_true_iff.
  apply andb_true_iff. split; [done | by apply IH].
Qed.

Lemma cells_text_no_nl (cells : list string) :
  Forall (λ c, clean c = true) cells →
  string_forall is_dot (cells_text cells) = true.
Proof.
  induction 1 as [|c [|d cells] Hc Hcells IH]; [done | by apply clean_no_nl |].
  change (cells_text (c :: d :: cells))
    with (c +:+ tab +:+ cells_text (d :: cells)).
  rewrite !string_forall_app, IH, (clean_no_nl c Hc). done.
Qed.

Lemma cells_text_cons (c : string) (cells : list string) :
  ∃ tl, cells_text (c :: cells) = c +:+ tl
        ∧ (tl = "" ∨ ∃ tl', tl = String TAB tl').
Proof.
  destruct cells as [|d cells].
  - exists "". split; [by rewrite append_nil_r | by left].
  - exists (tab +:+ cells_text (d :: cells)). split; [done |]. right. eauto.
Qed.

(** The loop writes finished rows, as wide as the header, and at most one
    unfinished row, when a cell raises. *)
Lemma for_each_row_outcome (ks : list Z) (g : globals) :
  ∃ rows partial,
    Forall (λ row, Forall (λ c, clean c = true) row
                   ∧ length row = length (header_cells g)) rows
    ∧ string_forall is_dot partial = true
    ∧ stdout (for_each print_row ks g).2 =
        stdout g +:+ table_text rows +:+ partial
    ∧ same_table g (for_each print_row ks g).2
    ∧ ((for_each print_row ks g).1 = Ret () → partial = "").
Proof.
  revert g. induction ks as [|k ks IH]; intros g.
  - exists [], "". simpl. split_and!; try done. by rewrite !append_nil_r.
  - simpl. pose proof (print_row_outcome k g) as Hrow.
    destruct (print_row k g) as [r g1] eqn:E.
    inversion Hrow as [cells g1' Hc Hl S1 T1 | e cells g1' Hc S1 T1 | Hk];
      subst.
    + rewrite (bind_Ret _ _ _ _ _ E).
      destruct (IH g1) as (rows & partial & Hrows & Hp & S2 & T2 & Hret).
      exists ((str k :: cells) :: rows), partial. split_and!; [| done | | | done].
      * constructor; [split; [constructor; [apply str_clean | done] | done] |].
        rewrite (same_table_header g g1 T1) in Hrows. exact Hrows.
      * rewrite S2, S1. simpl. by rewrite !append_assoc.
      * by eapply same_table_trans.
    + rewrite (bind_Raise _ _ _ _ _ E).
      exists [], (cells_text (str k :: cells)).
      split_and!; [done | | exact S1 | done | done].
      apply cells_text_no_nl. constructor; [apply str_clean | done].
    + rewrite (bind_Raise _ _ _ _ _ E). exists [], "".
      split_and!; [done | done | | apply same_table_refl | done].
      simpl. by rewrite !append_nil_r.
Qed.

(** The first row starts with the first key. *)
Lemma for_each_first_key (k : Z) (ks : list Z) (g : globals) :
  in_range k →
  ∃ rest, stdout (for_each print_row (k :: ks) g).2 = stdout g +:+ str k +:+ rest
          ∧ (rest = "" ∨ ∃ c rest', rest = String c rest' ∧ (c = TAB ∨ c = NL)).
Proof.
  intros Hk. simpl. pose proof (print_row_outcome k g) as Hrow.
  destruct (print_row k g) as [r g1] eqn:E.
  destruct (cells_text_cons (str k)) with (cells := @nil string) as (t0 & _ & _).
  inversion Hrow as [cells g1' Hc Hl S1 T1 | e cells g1' Hc S1 T1 | Hn]; subst;
    [| | done].
  - rewrite (bind_Ret _ _ _ _ _ E).
    destruct (for_each_row_outcome ks g1) as (rows & partial & _ & _ & S2 & _).
    destruct (cells_text_cons (str k) cells) as (tl & Htl & Hcase).
    rewrite S2, S1. unfold row_text. rewrite Htl, !append_assoc.
    eexists. split; [reflexivity |]. right.
    destruct Hcase as [-> | (tl' & ->)]; [exists NL | exists TAB];
      eexists; (split; [reflexivity | auto]).
  - rewrite (bind_Raise _ _ _ _ _ E).
    destruct (cells_text_cons (str k) cells) as (tl & Htl & Hcase).
    simpl. rewrite S1, Htl. exists tl. split; [done |].
    destruct Hcase as [-> | (tl' & ->)]; [by left | right; eauto].
Qed.

(** ** The printing pass as a whole *)

Lemma print_header_start (g : globals) :
  (set_tone_event_previous "CW_DEBUG_EVENT_TONE_LOW" >>
   set_tq_event_previous "CW_DEBUG_EVENT_TQ_STILL_NEMPTY" >>
   print_header) g = (Ret (), start_printing g).
Proof.
  unfold print_header, bind, set_tone_event_previous, set_tq_event_previous,
    gets, when, ret, print, start_printing, header_cells, row_text. simpl.
  destruct (tone_event_present g), (tq_event_present g); simpl;
    do 2 f_equal; by rewrite !append_assoc.
Qed.

Lemma print_table_from_start (ks : list Z) (g : globals) :
  print_table_from ks g = for_each print_row (sorted ks) (start_printing g).
Proof.
  unfold print_table_from.
  pose proof (print_header_start g) as H.
  unfold bind, set_tone_event_previous, set_tq_event_previous in *.
  simpl in *. by rewrite H.
Qed.

(** ** The two passes together *)

Lemma read_loop_nil (g : globals) : read_loop [] g = (Ret (), g).
Proof. reflexivity. Qed.

(** When every time can be converted the printing pass runs on the state
    the loop ends in; otherwise the script ends with [ValueError] and the
    printing pass does not run. *)
Lemma main_normal (lines : list string) :
  times_parse lines → main lines = print_table (read_loop lines initial).2.
Proof.
  intros H%(read_loop_normal _ initial). unfold main.
  by rewrite (bind_Ret _ _ _ _ _ (res_eta _ H)).
Qed.

Lemma main_raises (lines : list string) :
  ¬ times_parse lines →
  main lines = (Raise ValueError, (read_loop lines initial).2).
Proof.
  intros H%(read_loop_raises _ initial). unfold main, bind.
  destruct (read_loop lines initial) as [[[]|e] g]; [done |].
  simpl in H. by injection H as ->.
Qed.

Lemma main_Ret_times_parse (lines : list string) :
  (main lines).1 = Ret () → times_parse lines.
Proof.
  intros H. destruct (decide (times_parse lines)) as [|Hn]; [done |].
  by rewrite (main_raises lines Hn) in H.
Qed.

(** ** Flags and cursors after the reading loop *)

Lemma categories_cons (line : string) (lines : list string) :
  categories (line :: lines) =
    match classified line with
    | Some (c, _, _) => c :: categories lines
    | None => categories lines
    end.
Proof.
  unfold categories. simpl. by destruct (classified line) as [[[c t] v]|].
Qed.

Lemma other_ne (c c' : category) : c' ≠ c → c = other c'.
Proof. by destruct c, c'. Qed.

Lemma read_loop_stdout (lines : list string) (g : globals) :
  stdout (read_loop lines g).2 = stdout g.
Proof.
  apply (read_loop_invariant (λ g', stdout g' = stdout g)); [|done].
  intros g' line <-.
  destruct (event_of_None_or_Some line) as [Hn | (c & t & v & He)].
  - apply (process_line_no_event g' line Hn).
  - apply (process_line_event g' line c t v He).
Qed.

(** A line that does not reach the branch of [c] leaves the flag and the
    cursor of [c] alone. *)
Lemma process_line_other (c : category) (g : globals) (line : string) :
  (∀ group1 group2, classified line ≠ Some (c, group1, group2)) →
  present c (process_line g line).2 = present c g
  ∧ previous c (process_line g line).2 = previous c g.
Proof.
  intros Hc. destruct (line_cases line)
    as [Hu | [(c' & t & v & He) | (c' & d & v & Hc' & Hd)]].
  - destruct (process_line_unclassified g line Hu) as [e ->]. by destruct c.
  - destruct (event_of_classified line c' t v He) as (d & Hc' & _).
    assert (c' ≠ c) by (intros ->; by apply (Hc d v)).
    destruct (process_line_event g line c' t v He) as (_ & _ & _ & A & B & _).
    by rewrite (other_ne c c').
  - assert (c' ≠ c) by (intros ->; by apply (Hc d v)).
    rewrite (process_line_overlong g line c' d v Hc' Hd). by destruct c, c'.
Qed.

(** A flag that is set stays set. *)
Lemma process_line_present (c : category) (g : globals) (line : string) :
  present c g = true → present c (process_line g line).2 = true.
Proof.
  intros Hp. destruct (line_cases line)
    as [Hu | [(c' & t & v & He) | (c' & d & v & Hc' & Hd)]].
  - destruct (process_line_unclassified g line Hu) as [e ->]. by destruct c.
  - destruct (process_line_event g line c' t v He) as (_ & A & _ & B & _).
    destruct (decide (c' = c)) as [<- | Hne]; [done |].
    rewrite (other_ne c c' Hne). by rewrite B, <- (other_ne c c' Hne).
  - rewrite (process_line_overlong g line c' d v Hc' Hd). by destruct c, c'.
Qed.

Lemma read_loop_present_kept (c : category) (lines : list string) (g : globals) :
  present c g = true → present c (read_loop lines g).2 = true.
Proof.
  apply (read_loop_invariant (λ g', present c g' = true)).
  intros g' line. apply process_line_present.
Qed.

(** A category that does not occur keeps its flag and its cursor. *)
Lemma read_loop_absent (c : category) (lines : list string) (g : globals) :
  ¬ occurs c lines →
  present c (read_loop lines g).2 = present c g
  ∧ previous c (read_loop lines g).2 = previous c g.
Proof.
  unfold occurs. revert g. induction lines as [|line lines IH]; intros g Hc;
    [done |].
  rewrite read_loop_cons. rewrite categories_cons in Hc.
  assert (Hline : ∀ d v, classified line ≠ Some (c, d, v)).
  { intros d v E. rewrite E in Hc. apply Hc. left. }
  assert (Hrest : c ∉ categories lines).
  { destruct (classified line) as [[[c' d] v]|]; [|done].
    by apply not_elem_of_cons in Hc as [_ Hc]. }
  destruct (process_line_other c g line Hline) as [A B].
  destruct (process_line g line) as [[[]|e] g']; simpl in *; [|done].
  destruct (IH g' Hrest) as [-> ->]. done.
Qed.

(** A category that occurs has its flag set, once the loop went through
    the lines. *)
Lemma read_loop_present (c : category) (lines : list string) (g : globals) :
  times_parse lines →
  occurs c lines → present c (read_loop lines g).2 = true.
Proof.
  unfold occurs. revert g. induction lines as [|line lines IH]; intros g Hp Hc.
  - by apply elem_of_nil in Hc.
  - destruct (read_loop_cons_normal line lines g Hp) as [_ ->].
    apply times_parse_cons in Hp as [Hd Hp].
    rewrite categories_cons in Hc.
    destruct (classified line) as [[[c' d] v]|] eqn:Hcl; [|by apply IH].
    apply elem_of_cons in Hc as [-> | Hc]; [|by apply IH].
    apply read_loop_present_kept.
    assert (He : event_of line = Some (c', int_value d, v)).
    { unfold event_of. by rewrite Hcl, (Hd c' d v eq_refl). }
    apply (process_line_event g line c' _ v He).
Qed.

(** C9 (as amended: no line of the input that reaches an event branch has a
    time of more than 4300 digits).  When the first event of a category [c]
    in the input is at time 0, the line writes the synthesized predecessor
    at -1 (the value the cursor of [c] started from); the final dictionary
    has the key -1, it is the first key in sorted order, and the first data
    row of the output starts with the time field [-1]. *)
Theorem event_at_zero_writes_minus_one
    (before after : list string) (line : string) (c : category)
    (variant : string) :
  times_parse (before ++ after) →
  ¬ occurs c before →
  event_of line = Some (c, 0, variant) →
  let lines := before ++ line :: after in
  let g := (read_loop lines initial).2 in
  input_events (read_loop (before ++ [line]) initial).2 !! (-1)
    = Some (previous c initial)
  ∧ is_Some (input_events g !! (-1))
  ∧ (∃ later, sorted (keys (input_events g)) = -1 :: later)
  ∧ ∃ rest,
      stdout (main lines).2 = row_text (header_cells g) +:+ "-1" +:+ rest
      ∧ (rest = "" ∨ ∃ ch rest', rest = String ch rest' ∧ (ch = TAB ∨ ch = NL)).
Proof.
  intros [Hb Ha]%times_parse_app Hfirst He lines g.
  assert (Hl : times_parse [line]) by by eapply times_parse_event.
  assert (Hp : times_parse lines).
  { apply times_parse_app. split; [done |].
    by apply (times_parse_app [line] after). }
  assert (Hkey : is_Some (input_events g !! (-1))).
  { apply (read_loop_event_slot lines line c 0 variant initial); [done | |done].
    apply elem_of_app. right. left. }
  assert (Hsorted : ∃ later, sorted (keys (input_events g)) = -1 :: later).
  { apply sorted_head; [by apply elem_of_keys |].
    intros k Hk%elem_of_keys.
    by apply (read_loop_keys_from lines initial initial_keys_from). }
  split_and!; [| done | done |].
  - rewrite (read_loop_app_normal _ _ _ Hb).
    destruct (read_loop_cons_normal line [] (read_loop before initial).2 Hl)
      as [_ ->].
    rewrite read_loop_nil. cbn [snd].
    rewrite (proj1 (process_line_event _ line c 0 variant He)).
    rewrite lookup_insert_ne by done. rewrite lookup_insert_eq.
    by rewrite (proj2 (read_loop_absent c before initial Hfirst)).
  - destruct Hsorted as [later Hs]. rewrite (main_normal lines Hp).
    unfold print_table. fold g. rewrite print_table_from_start, Hs.
    destruct (for_each_first_key (-1) later (start_printing g))
      as (rest & -> & Hrest); [reflexivity |].
    exists rest. split; [|done]. simpl. unfold g. by rewrite read_loop_stdout.
Qed.

Lemma event_at_zero_writes_minus_one_witness :
  let line := event_line "0" "CW_DEBUG_EVENT_TQ_NONEMPTY" in
  let lines := two_tones ++ line :: tq_then_tone in
  let g := (read_loop lines initial).2 in
  times_parse (two_tones ++ tq_then_tone)
  ∧ ¬ occurs TQ two_tones
  ∧ event_of line = Some (TQ, 0, "CW_DEBUG_EVENT_TQ_NONEMPTY")
  ∧ input_events (read_loop (two_tones ++ [line]) initial).2 !! (-1)
      = Some "CW_DEBUG_EVENT_TQ_STILL_EMPTY"
  ∧ is_Some (input_events g !! (-1))
  ∧ (∃ later, sorted (keys (input_events g)) = -1 :: later)
  ∧ ∃ rest,
      stdout (main lines).2 = row_text (header_cells g) +:+ "-1" +:+ rest
      ∧ (rest = "" ∨ ∃ ch rest', rest = String ch rest' ∧ (ch = TAB ∨ ch = NL)).
Proof.
  assert (Hp : times_parse (two_tones ++ tq_then_tone)).
  { apply (bool_decide_unpack _). by vm_compute. }
  assert (Hfirst : ¬ occurs TQ two_tones).
  { apply (bool_decide_unpack _). by vm_compute. }
  split; [exact Hp |]. split; [exact Hfirst |]. split; [reflexivity |].
  exact (event_at_zero_writes_minus_one two_tones tq_then_tone
           (event_line "0" "CW_DEBUG_EVENT_TQ_NONEMPTY") TQ
           "CW_DEBUG_EVENT_TQ_NONEMPTY" Hp Hfirst eq_refl).
Defined.

(** C9, as it is worded.  A Tone event at time 0 followed by a Tone line
    whose time has 4301 digits: the first line files the key -1, the second
    ends the script with [ValueError] in the reading loop, and nothing is
    printed, so no data row has the time -1. *)
Lemma event_at_zero_no_row :
  let first := event_line "0" "CW_DEBUG_EVENT_TONE_HIGH" in
  let lines := [first; long_tone_line] in
  event_of first = Some (Tone, 0, "CW_DEBUG_EVENT_TONE_HIGH")
  ∧ is_Some (input_events (read_loop lines initial).2 !! (-1))
  ∧ (main lines).1 = Raise ValueError
  ∧ stdout (main lines).2 = ""
  ∧ rows_written (stdout (main lines).2) = [].
Proof. split_and!; try by vm_compute. apply (bool_decide_unpack _). by vm_compute. Qed.

(** C6.  The output of a run is a function of the lines of the input alone:
    whatever order the dictionary yields its keys in, the printing pass
    visits them sorted, and two runs on the same input end with the same
    result, the same standard output and the same error stream. *)
Theorem output_determined_by_input (lines : list string) (ks1 ks2 : list Z) :
  ks1 ≡ₚ keys (input_events (read_loop lines initial).2) →
  ks2 ≡ₚ keys (input_events (read_loop lines initial).2) →
  main_from ks1 lines = main_from ks2 lines
  ∧ main_from ks1 lines = main lines.
Proof.
  intros H1 H2. unfold main, main_from, bind.
  destruct (read_loop lines initial) as [[[]|e] g]; [|done]. simpl in H1, H2.
  unfold print_table, print_table_from.
  by rewrite (sorted_Permutation ks1 _ H1), (sorted_Permutation ks2 _ H2).
Qed.

Lemma output_determined_by_input_witness :
  [9; 10; 19; 20] ≡ₚ keys (input_events (read_loop two_tones initial).2)
  ∧ [20; 19; 10; 9] ≡ₚ keys (input_events (read_loop two_tones initial).2)
  ∧ main_from [9; 10; 19; 20] two_tones = main_from [20; 19; 10; 9] two_tones
  ∧ main_from [9; 10; 19; 20] two_tones = main two_tones.
Proof.
  assert (H1 : [9; 10; 19; 20]
               ≡ₚ keys (input_events (read_loop two_tones initial).2)).
  { apply (bool_decide_unpack _). by vm_compute. }
  assert (H2 : [20; 19; 10; 9]
               ≡ₚ keys (input_events (read_loop two_tones initial).2)).
  { apply (bool_decide_unpack _). by vm_compute. }
  split; [exact H1 |]. split; [exact H2 |].
  exact (output_determined_by_input two_tones _ _ H1 H2).
Defined.

(** ** Reading the output back *)

Lemma split_lines_line (a s : string) :
  string_forall is_dot a = true →
  split_lines (a +:+ nl +:+ s) = (a :: (split_lines s).1, (split_lines s).2).
Proof.
  induction a as [|c a IH]; intros Ha.
  - rewrite append_nil_l. unfold nl. rewrite append_cons, append_nil_l. simpl.
    by destruct (split_lines s).
  - simpl in Ha. apply andb_true_iff in Ha as [Hc Ha].
    rewrite append_cons. simpl. rewrite (IH Ha).
    unfold is_dot in Hc. by destruct (Ascii.eqb c NL).
Qed.

Lemma split_lines_unfinished (p : string) :
  string_forall is_dot p = true → split_lines p = ([], p).
Proof.
  induction p as [|c p IH]; [done |]. simpl.
  intros [Hc Hp]%andb_true_iff. rewrite (IH Hp).
  unfold is_dot in Hc. by destruct (Ascii.eqb c NL).
Qed.

Lemma fields_one (a : string) :
  string_forall (λ c, negb (Ascii.eqb c TAB)) a = true → fields a = [a].
Proof.
  induction a as [|c a IH]; [done |]. simpl.
  intros [Hc Ha]%andb_true_iff. rewrite (IH Ha).
  by destruct (Ascii.eqb c TAB).
Qed.

Lemma fields_cons (a s : string) :
  string_forall (λ c, negb (Ascii.eqb c TAB)) a = true →
  fields (a +:+ tab +:+ s) = a :: fields s.
Proof.
  induction a as [|c a IH]; intros Ha.
  - rewrite append_nil_l. unfold tab. by rewrite append_cons, append_nil_l.
  - simpl in Ha. apply andb_true_iff in Ha as [Hc Ha].
    rewrite append_cons. simpl. rewrite (IH Ha).
    by destruct (Ascii.eqb c TAB).
Qed.

Lemma fields_cells_text (cells : list string) :
  cells ≠ [] → Forall (λ c, clean c = true) cells →
  fields (cells_text cells) = cells.
Proof.
  intros Hne Hc. induction Hc as [|c [|d cells] Hc Hcells IH]; [done | |].
  - by apply fields_one, clean_no_tab.
  - change (cells_text (c :: d :: cells))
      with (c +:+ tab +:+ cells_text (d :: cells)).
    rewrite fields_cons by by apply clean_no_tab. by rewrite IH.
Qed.

(** The rows read back from a table followed by an unfinished row are the
    rows of the table. *)
Lemma split_lines_table (rows : list (list string)) (p : string) :
  Forall (Forall (λ c, clean c = true)) rows →
  string_forall is_dot p = true →
  split_lines (table_text rows +:+ p) = (cells_text <$> rows, p).
Proof.
  intros Hrows Hp. induction Hrows as [|row rows Hrow _ IH].
  - simpl. rewrite append_nil_l. by apply split_lines_unfinished.
  - simpl. unfold row_text. rewrite !append_assoc.
    rewrite split_lines_line by by apply cells_text_no_nl. by rewrite IH.
Qed.

Lemma rows_written_table (rows : list (list string)) (p : string) :
  Forall (λ row, Forall (λ c, clean c = true) row ∧ row ≠ []) rows →
  string_forall is_dot p = true →
  rows_written (table_text rows +:+ p) = rows.
Proof.
  intros Hrows Hp. unfold rows_written.
  rewrite split_lines_table; [| | done].
  - change ((cells_text <$> rows, p).1) with (cells_text <$> rows).
    induction Hrows as [|row rows [Hc Hne] _ IH]; [done |].
    by rewrite !fmap_cons, fields_cells_text, IH.
  - eapply Forall_impl; [exact Hrows | by intros row [H _]].
Qed.

Lemma header_cells_clean (g : globals) :
  Forall (λ c, clean c = true) (header_cells g).
Proof.
  unfold header_cells.
  destruct (tone_event_present g), (tq_event_present g);
    by repeat constructor.
Qed.

(** The output of a run, read back: the header, then finished rows as wide
    as the header; an unfinished row is left only when the pass raised. *)
Lemma main_rows (lines : list string) :
  times_parse lines →
  let g := (read_loop lines initial).2 in
  let out := stdout (main lines).2 in
  ∃ data,
    rows_written out = header_cells g :: data
    ∧ Forall (λ row, length row = length (header_cells g)) data
    ∧ ((main lines).1 = Ret () → (split_lines out).2 = "").
Proof.
  intros Hparse g out. subst out. rewrite (main_normal lines Hparse).
  unfold print_table. fold g. rewrite print_table_from_start.
  destruct (for_each_row_outcome (sorted (keys (input_events g)))
              (start_printing g)) as (rows & p & Hrows & Hp & -> & _ & Hret).
  assert (Hstart : stdout (start_printing g) = row_text (header_cells g)).
  { simpl. unfold g. by rewrite read_loop_stdout. }
  assert (Hall : Forall (λ row, Forall (λ c, clean c = true) row ∧ row ≠ [])
                   (header_cells g :: rows)).
  { constructor; [split; [apply header_cells_clean | done] |].
    eapply Forall_impl; [exact Hrows |]. intros row [Hc Hl].
    split; [done |]. by destruct row. }
  rewrite Hstart, <- append_assoc.
  change (row_text (header_cells g) +:+ table_text rows)
    with (table_text (header_cells g :: rows)).
  exists rows. split_and!.
  - by apply rows_written_table.
  - eapply Forall_impl; [exact Hrows | by intros row [_ H]].
  - intros ->%Hret. rewrite split_lines_table; [done | | done].
    eapply Forall_impl; [exact Hall | by intros row [H _]].
Qed.

(** ** Inputs with a single category *)

Lemma initial_single_category (c : category) : single_category c initial.
Proof.
  split_and!.
  - intros k v H. simpl in H. by rewrite lookup_empty in H.
  - destruct c; (split; [done | by eexists]).
  - by destruct c.
Qed.

Lemma process_line_single_category (c : category) (g : globals) (line : string) :
  single_category c g →
  (∀ group1 group2, classified line ≠ Some (other c, group1, group2)) →
  (∀ c' time variant, event_of line = Some (c', time, variant) →
     is_Some (event_values !! variant)) →
  single_category c (process_line g line).2.
Proof.
  intros (Htable & Hprev & Hother) Hcls Hline.
  destruct (process_line_other (other c) g line Hcls) as [Ho _].
  destruct (event_of_None_or_Some line) as [Hn | (c' & t & v & He)].
  - destruct (process_line_no_event g line Hn) as (E1 & E2 & E3 & _).
    split_and!.
    + by rewrite E1.
    + destruct c; simpl in *; by rewrite ?E2, ?E3.
    + by rewrite Ho.
  - pose proof (Hline c' t v He) as Hknown.
    assert (c' = c) as ->.
    { destruct (event_of_classified line c' t v He) as (d & Hc' & _).
      destruct (decide (c' = c)) as [|Hne]; [done |].
      destruct (Hcls d v). by rewrite Hc', (other_ne c' c). }
    destruct (event_of_inv line c t v He) as (_ & _ & _ & _ & Hclass).
    destruct (process_line_event g line c t v He) as (E1 & _ & E3 & E4 & _).
    split_and!.
    + intros k w. rewrite E1. rewrite !lookup_insert_Some.
      intros [[_ <-] | [_ [[_ <-] | [_ Hold]]]]; [done | done | by eapply Htable].
    + by rewrite E3.
    + by rewrite E4.
Qed.

Lemma read_loop_single_category (c : category) (lines : list string) (g : globals) :
  single_category c g →
  known_variants lines → ¬ occurs (other c) lines →
  single_category c (read_loop lines g).2.
Proof.
  unfold occurs. revert g.
  induction lines as [|line lines IH]; intros g Hg Hknown Hout; [done |].
  rewrite read_loop_cons. apply Forall_cons in Hknown as [Hline Hknown].
  rewrite categories_cons in Hout.
  assert (Hstep : single_category c (process_line g line).2).
  { apply process_line_single_category; [done | | done].
    intros d v E. rewrite E in Hout. apply Hout. left. }
  assert (Hrest : other c ∉ categories lines).
  { destruct (classified line) as [[[c' d] v]|]; [|done].
    by apply not_elem_of_cons in Hout as [_ Hout]. }
  destruct (process_line g line) as [[[]|e] g']; [by apply IH | done].
Qed.

(** With one category only, and known names, every row is written. *)
Lemma print_row_single_category (c : category) (time : Z) (g : globals) :
  present c g = true → present (other c) g = false →
  (∀ k v, input_events g !! k = Some v → known_entry c v) →
  is_Some (input_events g !! time) → in_range time →
  (print_row time g).1 = Ret ().
Proof.
  intros Hc Ho Htable [v Hv] Hr. unfold print_row.
  rewrite (print_int_in_range time Hr).
  destruct (print_outcome (str time) g) as (g0 & E0 & _ & T0 & A0 & B0 & _).
  rewrite (bind_Ret _ _ _ _ _ E0). rewrite <- T0 in Hv.
  pose proof (cell_known c time g0 v Hv (Htable _ _ ltac:(by rewrite <- T0)))
    as Hcell.
  unfold bind at 1. rewrite guarded_cell, A0.
  destruct c; simpl in Hc, Ho, Hcell; rewrite ?Hc, ?Ho.
  - destruct (tone_cell time g0) as [r1 g1] eqn:E1. simpl in Hcell. subst r1.
    pose proof (tone_cell_outcome time g0) as H1. rewrite E1 in H1.
    inversion H1 as [code g1' _ _ (_ & _ & B1 & _) |]; subst.
    unfold bind at 1. rewrite guarded_cell, B1, B0, Ho. done.
  - unfold bind at 1. rewrite guarded_cell, B0, Hc.
    destruct (tq_cell time g0) as [r1 g1] eqn:E1. simpl in Hcell. by subst r1.
Qed.

Lemma for_each_single_category (c : category) (ks : list Z) (g : globals) :
  present c g = true → present (other c) g = false →
  (∀ k v, input_events g !! k = Some v → known_entry c v) →
  Forall (λ k, is_Some (input_events g !! k) ∧ in_range k) ks →
  (for_each print_row ks g).1 = Ret ().
Proof.
  revert g. induction ks as [|k ks IH]; intros g Hc Ho Htable Hks; [done |].
  apply Forall_cons in Hks as [[Hk Hr] Hks].
  pose proof (print_row_single_category c k g Hc Ho Htable Hk Hr) as Hrow.
  pose proof (print_row_outcome k g) as Hout.
  destruct (print_row k g) as [r g1] eqn:E. simpl in Hrow. subst r.
  inversion Hout as [cells g1' _ _ _ (T1 & A1 & B1 & _) | |]; subst.
  change (for_each print_row (k :: ks) g)
    with ((print_row k >> for_each print_row ks) g).
  rewrite (bind_Ret _ _ _ _ _ E). apply IH.
  - destruct c; simpl in *; congruence.
  - destruct c; simpl in *; congruence.
  - by rewrite T1.
  - eapply Forall_impl; [exact Hks |]. intros k' [Hk' Hr']. by rewrite T1.
Qed.

(** A run on an input with the single category [c], known names and times
    that can be converted ends normally. *)
Lemma main_single_category (c : category) (lines : list string) :
  times_parse lines →
  known_variants lines → occurs c lines → ¬ occurs (other c) lines →
  (main lines).1 = Ret ()
  ∧ present c (read_loop lines initial).2 = true
  ∧ present (other c) (read_loop lines initial).2 = false.
Proof.
  intros Hparse Hknown Hc Ho.
  destruct (read_loop_single_category c lines initial
              (initial_single_category c) Hknown Ho) as (Htable & _ & Hother).
  pose proof (read_loop_present c lines initial Hparse Hc) as Hpresent.
  split_and!; [| done | done].
  rewrite (main_normal lines Hparse).
  unfold print_table. rewrite print_table_from_start.
  apply (for_each_single_category c); [by destruct c | by destruct c | done |].
  apply Forall_forall. intros k Hk.
  destruct (sorted_spec (keys (input_events (read_loop lines initial).2)))
    as [_ Hp].
  rewrite Hp in Hk. apply elem_of_keys in Hk.
  split; [done | by apply (read_loop_in_range lines)].
Qed.

(** C5 (as amended).  When no line of the input that reaches an event
    branch has a time of more than 4300 digits, the columns follow the
    categories of the input:
    - only Tone events, each with one of the three Tone names: the run ends
      normally and the header and every data row have exactly the columns
      Time and Tone;
    - only TQ events, each with one of the three TQ names: the same with
      the columns Time and TQ;
    - events of both categories: the header has the three columns Time,
      Tone and TQ, and every data row written in full has three fields. *)
Theorem columns_follow_categories (lines : list string) :
  times_parse lines →
  let out := stdout (main lines).2 in
  (known_variants lines → occurs Tone lines → ¬ occurs TQ lines →
     (main lines).1 = Ret () ∧ (split_lines out).2 = ""
     ∧ ∃ data, rows_written out = ["Time"; "Tone"] :: data
               ∧ Forall (λ row, length row = 2%nat) data)
  ∧ (known_variants lines → occurs TQ lines → ¬ occurs Tone lines →
       (main lines).1 = Ret () ∧ (split_lines out).2 = ""
       ∧ ∃ data, rows_written out = ["Time"; "TQ"] :: data
                 ∧ Forall (λ row, length row = 2%nat) data)
  ∧ (occurs Tone lines → occurs TQ lines →
       ∃ data, rows_written out = ["Time"; "Tone"; "TQ"] :: data
               ∧ Forall (λ row, length row = 3%nat) data).
Proof.
  intros Hparse out.
  destruct (main_rows lines Hparse) as (data & Hrows & Hwidth & Hdone).
  fold out in Hrows, Hdone. split_and!.
  - intros Hknown Hc Ho.
    destruct (main_single_category Tone lines Hparse Hknown Hc Ho)
      as (Hret & Hp & Hq).
    simpl in Hp, Hq. unfold header_cells in Hrows, Hwidth.
    rewrite Hp, Hq in Hrows, Hwidth. split_and!; [done | by apply Hdone |].
    by exists data.
  - intros Hknown Hc Ho.
    destruct (main_single_category TQ lines Hparse Hknown Hc Ho)
      as (Hret & Hp & Hq).
    simpl in Hp, Hq. unfold header_cells in Hrows, Hwidth.
    rewrite Hp, Hq in Hrows, Hwidth. split_and!; [done | by apply Hdone |].
    by exists data.
  - intros Htone Htq.
    pose proof (read_loop_present Tone lines initial Hparse Htone) as Hp.
    pose proof (read_loop_present TQ lines initial Hparse Htq) as Hq.
    simpl in Hp, Hq. unfold header_cells in Hrows, Hwidth.
    rewrite Hp, Hq in Hrows, Hwidth. by exists data.
Qed.

Lemma columns_follow_categories_witness :
  let out := stdout (main two_tones).2 in
  times_parse two_tones
  ∧ known_variants two_tones ∧ occurs Tone two_tones ∧ ¬ occurs TQ two_tones
  ∧ (main two_tones).1 = Ret () ∧ (split_lines out).2 = ""
  ∧ ∃ data, rows_written out = ["Time"; "Tone"] :: data
            ∧ Forall (λ row, length row = 2%nat) data.
Proof.
  intros out.
  assert (Hparse : times_parse two_tones).
  { apply (bool_decide_unpack _). by vm_compute. }
  assert (Hknown : known_variants two_tones).
  { repeat constructor; intros c t v [= <- <- <-]; by eexists. }
  assert (Hc : occurs Tone two_tones).
  { unfold occurs. apply (bool_decide_unpack _). by vm_compute. }
  assert (Ho : ¬ occurs TQ two_tones).
  { unfold occurs. apply (bool_decide_unpack _). by vm_compute. }
  do 4 (split; [done |]).
  exact (proj1 (columns_follow_categories two_tones Hparse) Hknown Hc Ho).
Defined.

(** C5, as it is worded, fails on three inputs.  A Tone-only input whose
    token is none of the three names: the pass raises in the row of 7,
    which is left with its time field alone.  An input with both
    categories: the pass raises in the first data row, which is left with
    two fields, and no row has three.  A Tone-only input with one of the
    three names and a time of 4301 digits: the script ends with
    [ValueError] in the reading loop and prints nothing, not even the
    header. *)
Lemma columns_not_always_complete :
  (occurs Tone [long_tone_line] ∧ ¬ occurs TQ [long_tone_line]
   ∧ classified long_tone_line
     = Some (Tone, digits_run 4301, "CW_DEBUG_EVENT_TONE_LOW")
   ∧ (main [long_tone_line]).1 = Raise ValueError
   ∧ stdout (main [long_tone_line]).2 = "")
  ∧ (occurs Tone unknown_variant ∧ ¬ occurs TQ unknown_variant
   ∧ (main unknown_variant).1 =
       Raise (KeyError (KStr "CW_DEBUG_EVENT_TONE_FOO"))
   ∧ rows_written (stdout (main unknown_variant).2) =
       [ ["Time"; "Tone"]; ["6"; "0"] ]
   ∧ fields (split_lines (stdout (main unknown_variant).2)).2 = ["7"])
  ∧ (occurs Tone tone_then_tq ∧ occurs TQ tone_then_tq
     ∧ (main tone_then_tq).1 =
         Raise (KeyError (KStr "CW_DEBUG_EVENT_TQ_STILL_NEMPTY"))
     ∧ rows_written (stdout (main tone_then_tq).2) = [ ["Time"; "Tone"; "TQ"] ]
     ∧ fields (split_lines (stdout (main tone_then_tq).2)).2 = ["4"; "0"]).
Proof.
  split_and!; try (by vm_compute);
    unfold occurs; apply (bool_decide_unpack _); by vm_compute.
Qed.

(** ** The TQ column cannot be filled before the first TQ row *)

Lemma prefix_spec (p v : string) :
  String.prefix p v = true ↔ ∃ r, v = p +:+ r.
Proof.
  revert v. induction p as [|a p IH]; intros v.
  - destruct v; simpl; split; eauto.
  - destruct v as [|b v]; simpl; [split; [done | by intros [r [=]]] |].
    destruct (ascii_dec a b) as [->|Hne].
    + rewrite IH. split; intros [r Hr]; exists r.
      * by rewrite Hr.
      * by injection Hr.
    + split; [done | intros [r [= <- _]]; done].
Qed.

Lemma tone_not_tq (v : string) :
  re_match "CW_DEBUG_EVENT_TONE" v = true →
  re_match "CW_DEBUG_EVENT_TQ" v = false.
Proof. unfold re_match. by intros [r ->]%prefix_spec. Qed.

Lemma tone_cell_tq_previous (time : Z) (g : globals) :
  tq_event_previous (tone_cell time g).2 = tq_event_previous g.
Proof.
  unfold tone_cell, bind, input_event, event_value, gets, print,
    set_tone_event_previous.
  destruct (input_events g !! time) as [entry|]; [|done].
  destruct (re_match "CW_DEBUG_EVENT_TONE" entry).
  - by destruct (event_values !! entry).
  - by destruct (event_values !! tone_event_previous g).
Qed.

(** With the TQ column on and the TQ cursor on the label the pass starts
    from, the row of an entry that is not a TQ event is never finished. *)
Lemma print_row_raises (time : Z) (g : globals) (entry : string) :
  tq_event_present g = true →
  tq_event_previous g = "CW_DEBUG_EVENT_TQ_STILL_NEMPTY" →
  input_events g !! time = Some entry →
  re_match "CW_DEBUG_EVENT_TQ" entry = false →
  ∃ e, (print_row time g).1 = Raise e.
Proof.
  intros Hq Hprev Hentry Hm. unfold print_row.
  destruct (print_int_cases time g) as [[_ E] | E].
  { rewrite (bind_Raise _ _ _ _ _ E). by exists ValueError. }
  set (g0 := (print (str time) g).2).
  rewrite (bind_Ret (print_int time) _ g g0 () E).
  unfold bind at 1. rewrite guarded_cell.
  assert (Hstage : ∀ g1, same_table g0 g1 →
            tq_event_previous g1 = tq_event_previous g0 →
            ∃ e, ((let! tq := gets tq_event_present in when tq (tq_cell time))
                  >> print nl) g1 = (Raise e, g1)).
  { intros g1 (T1 & _ & B1 & _) P1. eexists. apply bind_Raise.
    rewrite guarded_cell, B1. change (tq_event_present g0) with (tq_event_present g).
    rewrite Hq. apply (tq_cell_raises g1 time entry); [by rewrite T1 | done |].
    by rewrite P1. }
  destruct (tone_event_present g0).
  - pose proof (tone_cell_outcome time g0) as H1.
    pose proof (tone_cell_tq_previous time g0) as P1.
    destruct (tone_cell time g0) as [r1 g1].
    inversion H1 as [code g1' _ _ T1 | e]; subst; [|by exists e].
    destruct (Hstage g1 T1 P1) as [e ->]. by exists e.
  - destruct (Hstage g0 (same_table_refl g0) eq_refl) as [e ->]. by exists e.
Qed.

Lemma process_line_tone_below (t2 : Z) (g : globals) (line : string) :
  tone_below t2 g →
  (∀ t v, event_of line = Some (TQ, t, v) → t2 ≤ t) →
  tone_below t2 (process_line g line).2.
Proof.
  intros [Htable Hprev] Hline.
  destruct (event_of_None_or_Some line) as [Hn | (c & t & v & He)].
  - destruct (process_line_no_event g line Hn) as (E1 & E3 & _).
    split; [by rewrite E1 | by rewrite E3].
  - destruct (event_of_inv line c t v He) as (_ & _ & _ & _ & Hclass).
    destruct (process_line_event g line c t v He) as (E1 & _ & E3 & _ & E5 & _).
    split.
    + intros k w. rewrite E1, !lookup_insert_Some.
      destruct c; simpl in *.
      * intros [[_ <-] | [_ [[_ <-] | [_ Hold]]]]; [by left | by left |].
        by eapply Htable.
      * pose proof (Hline t v He).
        intros [[<- _] | [_ [[<- _] | [_ Hold]]]]; [right; lia | right; lia |].
        by eapply Htable.
    + destruct c; simpl in *; congruence.
Qed.

Lemma read_loop_tone_below (t2 : Z) (lines : list string) (g : globals) :
  tone_below t2 g →
  (∀ l t v, l ∈ lines → event_of l = Some (TQ, t, v) → t2 ≤ t) →
  tone_below t2 (read_loop lines g).2.
Proof.
  revert g. induction lines as [|line lines IH]; intros g Hg Hlines; [done |].
  rewrite read_loop_cons.
  assert (Hstep : tone_below t2 (process_line g line).2).
  { apply process_line_tone_below; [done |]. intros t v. apply Hlines. left. }
  destruct (process_line g line) as [[[]|e] g']; [|done].
  apply IH; [done |]. intros l t v Hl. apply Hlines. by right.
Qed.

Lemma sorted_head_le (l : list Z) (x : Z) :
  x ∈ l → ∃ k tl, sorted l = k :: tl ∧ k ∈ l ∧ k ≤ x.
Proof.
  intros Hin. destruct (sorted_spec l) as [Hs Hp].
  destruct (sorted l) as [|k tl] eqn:E.
  - rewrite <- Hp in Hin. by apply elem_of_nil in Hin.
  - exists k, tl. split_and!; [done | rewrite <- Hp; left |].
    apply StronglySorted_inv in Hs as [_ Hk].
    rewrite <- Hp in Hin. apply elem_of_cons in Hin as [-> | Hin]; [done |].
    rewrite Forall_forall in Hk. by apply Hk.
Qed.

(** X15.  On every input whose times can all be converted, where a Tone
    event fires at [t1] and no TQ event fires before [t2 > t1 + 1], the
    printing pass raises in its first data row: no data row is finished,
    the row of [t1] is never written. *)
Lemma tq_after_tone_raises
    (lines : list string) (line : string) (t1 t2 : Z) (variant : string) :
  times_parse lines →
  line ∈ lines → event_of line = Some (Tone, t1, variant) →
  occurs TQ lines →
  (∀ l t v, l ∈ lines → event_of l = Some (TQ, t, v) → t2 ≤ t) →
  t1 + 1 < t2 →
  (∃ e, (main lines).1 = Raise e)
  ∧ rows_written (stdout (main lines).2)
    = [header_cells (read_loop lines initial).2].
Proof.
  intros Hparse Hin He Htq Hlater Hlt. set (g := (read_loop lines initial).2).
  assert (Hbelow : tone_below t2 g).
  { apply read_loop_tone_below; [|done]. split; [|done].
    intros k v H. simpl in H. by rewrite lookup_empty in H. }
  pose proof (read_loop_event_slot lines line Tone t1 variant initial
                Hparse Hin He) as Hslot.
  fold g in Hslot. apply elem_of_keys in Hslot.
  destruct (sorted_head_le _ _ Hslot) as (k & tl & Hs & Hk & Hle).
  assert (Hr : in_range k).
  { apply (read_loop_in_range lines). by apply elem_of_keys. }
  apply elem_of_keys in Hk as [entry Hentry].
  assert (Hm : re_match "CW_DEBUG_EVENT_TQ" entry = false).
  { destruct (proj1 Hbelow k entry Hentry) as [Hc | ?]; [|lia].
    apply tone_not_tq. unfold classify in Hc.
    destruct (re_match "CW_DEBUG_EVENT_TONE" entry); [done |].
    by destruct (re_match "CW_DEBUG_EVENT_TQ" entry). }
  pose proof (read_loop_present TQ lines initial Hparse Htq) as Hq.
  destruct (print_row_raises k (start_printing g) entry Hq eq_refl Hentry Hm)
    as [e Hraise].
  pose proof (print_row_outcome k (start_printing g)) as Hout.
  destruct (print_row k (start_printing g)) as [r g1] eqn:E.
  simpl in Hraise. subst r.
  inversion Hout as [| e' cells g1' Hcells S1 _ | Hn]; subst; [|done].
  rewrite (main_normal lines Hparse).
  unfold print_table. fold g. rewrite print_table_from_start, Hs.
  change (for_each print_row (k :: tl) (start_printing g))
    with ((print_row k >> for_each print_row tl) (start_printing g)).
  rewrite (bind_Raise _ _ _ _ _ E). split; [by exists e |].
  change ((Raise e, g1).2) with g1. rewrite S1.
  assert (Hstart : stdout (start_printing g) = table_text [header_cells g]).
  { simpl. unfold g. by rewrite read_loop_stdout, append_nil_r. }
  rewrite Hstart. apply rows_written_table.
  - constructor; [|constructor]. split; [apply header_cells_clean | done].
  - apply cells_text_no_nl. constructor; [apply str_clean | done].
Qed.

Lemma tq_after_tone_raises_witness :
  let line := event_line "5" "CW_DEBUG_EVENT_TONE_HIGH" in
  times_parse tone_then_tq
  ∧ line ∈ tone_then_tq
  ∧ event_of line = Some (Tone, 5, "CW_DEBUG_EVENT_TONE_HIGH")
  ∧ occurs TQ tone_then_tq
  ∧ (∀ l t v, l ∈ tone_then_tq → event_of l = Some (TQ, t, v) → 8 ≤ t)
  ∧ 5 + 1 < 8
  ∧ (∃ e, (main tone_then_tq).1 = Raise e)
  ∧ rows_written (stdout (main tone_then_tq).2) = [ ["Time"; "Tone"; "TQ"] ].
Proof.
  intros line.
  assert (Hparse : times_parse tone_then_tq).
  { apply (bool_decide_unpack _). by vm_compute. }
  assert (Hin : line ∈ tone_then_tq) by left.
  assert (Hq : occurs TQ tone_then_tq).
  { unfold occurs. apply (bool_decide_unpack _). by vm_compute. }
  assert (Hlater : ∀ l t v, l ∈ tone_then_tq →
                     event_of l = Some (TQ, t, v) → 8 ≤ t).
  { intros l t v Hl. repeat (apply elem_of_cons in Hl as [-> | Hl]).
    - discriminate.
    - by intros [= <- _].
    - by apply elem_of_nil in Hl. }
  split; [exact Hparse |].
  split; [exact Hin |]. split; [reflexivity |]. split; [exact Hq |].
  split; [exact Hlater |]. split; [lia |].
  exact (tq_after_tone_raises tone_then_tq line 5 8
           "CW_DEBUG_EVENT_TONE_HIGH" Hparse Hin eq_refl Hq Hlater ltac:(lia)).
Defined.

(** * Further properties of the two passes *)

(** ** The scanner *)

Lemma line_re_intro (group1 group2 rest : string) :
  group1 ≠ "" → string_forall is_digit group1 = true →
  group2 ≠ "" → string_forall is_dot group2 = true →
  (rest = "" ∨ ∃ rest', rest = String NL rest') →
  line_re ("libcwevent:" +:+ tab +:+ group1 +:+ tab +:+ group2 +:+ rest)
  = Some (group1, group2).
Proof.
  intros Hne Hds Htne Htok Hrest. unfold line_re.
  rewrite <- (append_assoc "libcwevent:" tab).
  rewrite (proj2 (strip_prefix_Some _ _ _) eq_refl).
  rewrite (span_longest is_digit group1 (tab +:+ group2 +:+ rest) Hds eq_refl).
  destruct group1 as [|c0 ds]; [done |]. unfold tab at 1.
  rewrite append_cons, append_nil_l, Ascii.eqb_refl.
  rewrite (span_longest is_dot group2 rest Htok).
  - by destruct group2.
  - by destruct Hrest as [-> | [r ->]].
Qed.

(** X1.  The two groups of a match are exactly the longest run of digits
    after [libcwevent:<TAB>] and, after the next tab, everything up to the
    end of the line: the token is never empty, holds no newline, and is
    followed by nothing or by a newline. *)
Theorem line_re_groups (line group1 group2 : string) :
  line_re line = Some (group1, group2) ↔
  ∃ rest,
    line = "libcwevent:" +:+ tab +:+ group1 +:+ tab +:+ group2 +:+ rest
    ∧ group1 ≠ "" ∧ string_forall is_digit group1 = true
    ∧ group2 ≠ "" ∧ string_forall is_dot group2 = true
    ∧ (rest = "" ∨ ∃ rest', rest = String NL rest').
Proof.
  unfold line_re. split.
  - destruct (strip_prefix _ line) as [r|] eqn:Hp; [|done].
    apply strip_prefix_Some in Hp as ->.
    destruct (span is_digit r) as [ds r1] eqn:Hd.
    apply span_split in Hd as (-> & Hds & _).
    destruct ds as [|c0 ds]; [done |]. destruct r1 as [|c r']; [done |].
    destruct (Ascii.eqb_spec c TAB) as [->|]; [|done].
    destruct (span is_dot r') as [tok r2] eqn:Ht.
    apply span_split in Ht as (-> & Htok & Hr2).
    destruct tok as [|c1 tok]; [done |]. intros [= <- <-].
    exists r2. split_and!; try done.
    destruct r2 as [|c2 r2]; [by left | right].
    unfold is_dot in Hr2. destruct (Ascii.eqb_spec c2 NL) as [->|]; [eauto | done].
  - intros (rest & -> & Hne & Hds & Htne & Htok & Hrest).
    fold line_re. by apply line_re_intro.
Qed.

Lemma line_re_groups_witness :
  line_re (event_line "042" "CW_DEBUG_EVENT_TQ_NONEMPTY  # queue")
  = Some ("042", "CW_DEBUG_EVENT_TQ_NONEMPTY  # queue").
Proof.
  apply line_re_groups. exists nl. split_and!; try done. right. by exists "".
Defined.

(** ** The dictionary after the reading loop *)

(** After a loop that went through an event of the input, the time of the
    event is a key. *)
Lemma read_loop_event_key
    (lines : list string) (line : string) (c : category) (time : Z)
    (variant : string) (g : globals) :
  times_parse lines →
  line ∈ lines → event_of line = Some (c, time, variant) →
  is_Some (input_events (read_loop lines g).2 !! time).
Proof.
  intros Hp Hin He. apply list_elem_of_split in Hin as (l1 & l2 & ->).
  apply times_parse_app in Hp as [Hp1 Hp2].
  rewrite (read_loop_app_normal _ _ _ Hp1).
  destruct (read_loop_cons_normal line l2 (read_loop l1 g).2 Hp2) as [_ ->].
  apply read_loop_keeps_keys.
  rewrite (proj1 (process_line_event_keys _ line c time variant He)). eauto.
Qed.

(** Every key comes from an event of the input. *)
Lemma read_loop_keys_sound (lines : list string) (g : globals) (k : Z) :
  is_Some (input_events (read_loop lines g).2 !! k) →
  is_Some (input_events g !! k)
  ∨ ∃ line c t v, line ∈ lines ∧ event_of line = Some (c, t, v)
                  ∧ (k = t ∨ k = t - 1).
Proof.
  revert g. induction lines as [|line lines IH]; intros g; [by left |].
  rewrite read_loop_cons.
  assert (Hstep : is_Some (input_events (process_line g line).2 !! k) →
            is_Some (input_events g !! k)
            ∨ ∃ c t v, event_of line = Some (c, t, v) ∧ (k = t ∨ k = t - 1)).
  { destruct (event_of_None_or_Some line) as [Hn | (c & t & v & He)].
    - rewrite (proj1 (process_line_no_event g line Hn)). by left.
    - rewrite (proj1 (process_line_event g line c t v He)).
      rewrite !lookup_insert_is_Some.
      intros [<- | [_ [<- | [_ H]]]];
        [right; exists c, t, v; eauto .. | by left]. }
  assert (Hhead : is_Some (input_events (process_line g line).2 !! k) →
            is_Some (input_events g !! k)
            ∨ ∃ l c t v, l ∈ line :: lines ∧ event_of l = Some (c, t, v)
                         ∧ (k = t ∨ k = t - 1)).
  { intros [H | (c & t & v & He & Hk)]%Hstep; [by left | right].
    exists line, c, t, v. split_and!; [left | done..]. }
  destruct (process_line g line) as [[[]|e] g']; simpl in *; [|done].
  intros [H | (l & c & t & v & Hl & Hev & Hk)]%IH; [by apply Hhead | right].
  exists l, c, t, v. split_and!; [by right | done..].
Qed.

(** X2.  Every key of the dictionary after the reading loop is the time of
    an event of the input or the time one unit before it, and no key is
    below -1; when every time of the input can be converted, the keys are
    exactly these times. *)
Theorem table_keys (lines : list string) (k : Z) :
  (is_Some (input_events (read_loop lines initial).2 !! k) →
   (∃ line c t v, line ∈ lines ∧ event_of line = Some (c, t, v)
                  ∧ (k = t ∨ k = t - 1))
   ∧ -1 ≤ k)
  ∧ (times_parse lines →
     (∃ line c t v, line ∈ lines ∧ event_of line = Some (c, t, v)
                    ∧ (k = t ∨ k = t - 1)) →
     is_Some (input_events (read_loop lines initial).2 !! k)).
Proof.
  split.
  - intros Hk. split.
    + destruct (read_loop_keys_sound lines initial k Hk) as [[x H] | H];
        [|done].
      simpl in H. by rewrite lookup_empty in H.
    + by apply (read_loop_keys_from lines initial initial_keys_from).
  - intros Hp (line & c & t & v & Hin & He & [-> | ->]).
    + by eapply read_loop_event_key.
    + by eapply read_loop_event_slot.
Qed.

Lemma table_keys_witness :
  times_parse two_tones
  ∧ (∃ line c t v, line ∈ two_tones ∧ event_of line = Some (c, t, v)
                   ∧ (19 = t ∨ 19 = t - 1))
  ∧ is_Some (input_events (read_loop two_tones initial).2 !! 19).
Proof.
  assert (Hp : times_parse two_tones).
  { apply (bool_decide_unpack _). by vm_compute. }
  assert (He : ∃ line c t v, line ∈ two_tones ∧ event_of line = Some (c, t, v)
                             ∧ (19 = t ∨ 19 = t - 1)).
  { exists (event_line "20" "CW_DEBUG_EVENT_TONE_HIGH"), Tone, 20,
      "CW_DEBUG_EVENT_TONE_HIGH".
    split_and!; [right; left | done | by right]. }
  split; [exact Hp |]. split; [exact He |].
  exact (proj2 (table_keys two_tones 19) Hp He).
Defined.

(** ** The error stream *)

(** An event whose two slots are free reports nothing. *)
Lemma process_line_free_slots
    (g : globals) (line : string) (c : category) (t : Z) (v : string) :
  event_of line = Some (c, t, v) →
  input_events g !! t = None → input_events g !! (t - 1) = None →
  stderr (process_line g line).2 = stderr g.
Proof.
  intros He H1 H2. rewrite (process_line_event_Ret g line c t v He).
  assert (F1 : ∀ msg, collision t msg (set_present c g) = set_present c g).
  { intros msg. unfold collision. rewrite decide_False; [done |].
    destruct c; simpl; rewrite H1; by intros [? ?]. }
  assert (F2 : ∀ msg, collision (t - 1) msg (set_present c g) = set_present c g).
  { intros msg. unfold collision. rewrite decide_False; [done |].
    destruct c; simpl; rewrite H2; by intros [? ?]. }
  destruct c; cbn [snd]; unfold tone_branch, tq_branch; simpl;
    rewrite F1, F2; done.
Qed.

Lemma read_loop_quiet (lines : list string) (g : globals) :
  no_unknown_token lines → spaced (event_times lines) →
  (∀ k, is_Some (input_events g !! k) →
        Forall (λ t, t ≠ k ∧ t - 1 ≠ k) (event_times lines)) →
  stderr (read_loop lines g).2 = stderr g.
Proof.
  revert g. induction lines as [|line lines IH]; intros g Hknown Hsp Hfree;
    [done |].
  rewrite read_loop_cons. apply Forall_cons in Hknown as [Hline Hknown].
  rewrite event_times_cons in Hsp, Hfree.
  destruct (line_cases line)
    as [Hu | [(c & t & v & He) | (c & d & v & Hc & Hd)]].
  - assert (Hre : line_re line = None).
    { destruct (line_re line) eqn:E; [|done].
      destruct Hline as [? ?]; [by eexists | congruence]. }
    assert (Hn : event_of line = None) by (unfold event_of; by rewrite Hu).
    rewrite Hn in Hsp, Hfree.
    rewrite (process_line_no_match g line Hre). by apply IH.
  - rewrite He in Hsp, Hfree. destruct Hsp as [Hfar Hsp].
    assert (H1 : input_events g !! t = None).
    { destruct (input_events g !! t) eqn:E; [|done].
      specialize (Hfree t ltac:(eauto)). apply Forall_cons in Hfree as [[? _] _].
      done. }
    assert (H2 : input_events g !! (t - 1) = None).
    { destruct (input_events g !! (t - 1)) eqn:E; [|done].
      specialize (Hfree (t - 1) ltac:(eauto)).
      apply Forall_cons in Hfree as [[_ ?] _]. done. }
    pose proof (process_line_free_slots g line c t v He H1 H2) as Hq.
    pose proof (proj1 (process_line_event g line c t v He)) as E1.
    rewrite (process_line_event_Ret g line c t v He) in Hq, E1 |- *.
    cbn [snd] in Hq, E1. rewrite IH; [done | done.. |].
    intros k. rewrite E1. rewrite !lookup_insert_is_Some.
    intros [<- | [_ [<- | [_ Hk]]]].
    + eapply Forall_impl; [exact Hfar |]. simpl. lia.
    + eapply Forall_impl; [exact Hfar |]. simpl. lia.
    + specialize (Hfree k Hk). by apply Forall_cons in Hfree as [_ ?].
  - rewrite (process_line_overlong g line c d v Hc Hd). by destruct c.
Qed.

(** X3.  When every matching line carries an event and any two events are
    at least two time units apart, no slot is written twice and the error
    stream stays empty. *)
Theorem spaced_events_no_diagnostic (lines : list string) :
  no_unknown_token lines → spaced (event_times lines) →
  stderr (read_loop lines initial).2 = [].
Proof.
  intros Hknown Hsp. rewrite read_loop_quiet; [done.. |].
  intros k [x H]. simpl in H. by rewrite lookup_empty in H.
Qed.

Lemma spaced_events_no_diagnostic_witness :
  let lines := ("cw: start" +:+ nl) :: two_tones ++ tone_then_tq in
  no_unknown_token lines ∧ spaced (event_times lines)
  ∧ stderr (read_loop lines initial).2 = [].
Proof.
  intros lines.
  assert (Hknown : no_unknown_token lines).
  { subst lines. unfold two_tones, tone_then_tq. simpl.
    repeat (apply Forall_cons; split;
            [intros H; vm_compute in H |- *;
             first [by destruct H | by eexists] |]).
    apply Forall_nil_2. }
  assert (Hsp : spaced (event_times lines)).
  { vm_compute. repeat split; repeat constructor; discriminate. }
  split; [exact Hknown |]. split; [exact Hsp |].
  exact (spaced_events_no_diagnostic lines Hknown Hsp).
Defined.

(** ** Events that share a slot *)

(** Two lines that carry an event each are both gone through. *)
Lemma read_loop_two_events
    (g : globals) (line1 line2 : string) (c1 c2 : category) (t1 t2 : Z)
    (v1 v2 : string) :
  event_of line1 = Some (c1, t1, v1) →
  event_of line2 = Some (c2, t2, v2) →
  read_loop [line1; line2] g
  = (Ret (), (process_line (process_line g line1).2 line2).2).
Proof.
  intros H1 H2. rewrite read_loop_cons.
  rewrite (process_line_event_Ret g line1 c1 t1 v1 H1).
  rewrite read_loop_cons. cbn [snd].
  by rewrite (process_line_event_Ret _ line2 c2 t2 v2 H2).
Qed.

(** An event whose predecessor slot is taken reports the second
    collision. *)
Lemma process_line_collision_2
    (g : globals) (line : string) (c : category) (t : Z) (v : string) :
  event_of line = Some (c, t, v) →
  is_Some (input_events g !! (t - 1)) →
  collision_2 c ∈ stderr (process_line g line).2.
Proof.
  intros He Hk. rewrite (process_line_event_Ret g line c t v He).
  destruct c; cbn [snd]; unfold tone_branch, tq_branch; simpl;
    unfold collision at 1; rewrite decide_True;
    try (by rewrite (proj1 (collision_same _ _ _)));
    simpl; apply elem_of_app; right; left.
Qed.

(** X4.  An event of one category right after an event of the other
    category, one time unit later (both with times that [int] converts),
    takes the slot of the earlier event for its synthesized predecessor:
    the loop goes through both lines, the sample of the earlier event is
    gone from the dictionary, replaced by the cursor of the later category,
    and the second collision test reports it. *)
Theorem adjacent_event_overwrites
    (g : globals) (line1 line2 : string) (c : category) (t : Z) (v w : string) :
  event_of line1 = Some (c, t, v) →
  event_of line2 = Some (other c, t + 1, w) →
  let g' := (process_line (process_line g line1).2 line2).2 in
  read_loop [line1; line2] g = (Ret (), g')
  ∧ input_events g' !! (t - 1) = Some (previous c g)
  ∧ input_events g' !! t = Some (previous (other c) g)
  ∧ input_events g' !! (t + 1) = Some w
  ∧ collision_2 (other c) ∈ stderr g'.
Proof.
  intros H1 H2 g'.
  split; [by apply (read_loop_two_events g line1 line2 c (other c) t (t + 1) v w) |].
  destruct (process_line_event g line1 c t v H1) as (E1 & _ & _ & _ & P1 & _).
  destruct (process_line_event (process_line g line1).2 line2 (other c) (t + 1)
              w H2) as (E2 & _).
  fold g' in E2. rewrite E2, E1, P1. replace (t + 1 - 1) with t by lia.
  split_and!.
  - rewrite !lookup_insert_ne by lia. by rewrite lookup_insert_eq.
  - rewrite lookup_insert_ne by lia. by rewrite lookup_insert_eq.
  - by rewrite lookup_insert_eq.
  - apply (process_line_collision_2 _ line2 (other c) (t + 1) w H2).
    replace (t + 1 - 1) with t by lia.
    rewrite (proj1 (process_line_event_keys g line1 c t v H1)). eauto.
Qed.

Lemma adjacent_event_overwrites_witness :
  let line1 := event_line "5" "CW_DEBUG_EVENT_TONE_HIGH" in
  let line2 := event_line "6" "CW_DEBUG_EVENT_TQ_NONEMPTY" in
  let g' := (process_line (process_line initial line1).2 line2).2 in
  event_of line1 = Some (Tone, 5, "CW_DEBUG_EVENT_TONE_HIGH")
  ∧ event_of line2 = Some (TQ, 5 + 1, "CW_DEBUG_EVENT_TQ_NONEMPTY")
  ∧ read_loop [line1; line2] initial = (Ret (), g')
  ∧ input_events g' !! (5 - 1) = Some "CW_DEBUG_EVENT_TONE_LOW"
  ∧ input_events g' !! 5 = Some "CW_DEBUG_EVENT_TQ_STILL_EMPTY"
  ∧ input_events g' !! (5 + 1) = Some "CW_DEBUG_EVENT_TQ_NONEMPTY"
  ∧ "TQ collision 2" ∈ stderr g'.
Proof.
  do 2 (split; [reflexivity |]).
  apply (adjacent_event_overwrites initial
           (event_line "5" "CW_DEBUG_EVENT_TONE_HIGH")
           (event_line "6" "CW_DEBUG_EVENT_TQ_NONEMPTY")
           Tone 5 "CW_DEBUG_EVENT_TONE_HIGH" "CW_DEBUG_EVENT_TQ_NONEMPTY");
    reflexivity.
Defined.

(** X5.  Two events of one category at the same time, one right after the
    other (with times that [int] converts): the loop goes through both
    lines, and the second writes the variant of the first in the
    predecessor slot, so the value the cursor had before the pair is gone
    from the dictionary and both slots hold the variants of the pair. *)
Theorem repeated_time_flattens_step
    (g : globals) (line1 line2 : string) (c : category) (t : Z) (v w : string) :
  event_of line1 = Some (c, t, v) →
  event_of line2 = Some (c, t, w) →
  let g' := (process_line (process_line g line1).2 line2).2 in
  read_loop [line1; line2] g = (Ret (), g')
  ∧ input_events g' !! (t - 1) = Some v
  ∧ input_events g' !! t = Some w
  ∧ previous c g' = w.
Proof.
  intros H1 H2 g'.
  split; [by apply (read_loop_two_events g line1 line2 c c t t v w) |].
  destruct (process_line_event g line1 c t v H1) as (_ & _ & P1 & _).
  destruct (process_line_event (process_line g line1).2 line2 c t w H2)
    as (E2 & _ & P2 & _).
  fold g' in E2, P2. rewrite E2, P1. split_and!; [| | done].
  - rewrite lookup_insert_ne by lia. by rewrite lookup_insert_eq.
  - by rewrite lookup_insert_eq.
Qed.

Lemma repeated_time_flattens_step_witness :
  let line1 := event_line "7" "CW_DEBUG_EVENT_TONE_HIGH" in
  let line2 := event_line "7" "CW_DEBUG_EVENT_TONE_MID" in
  let g' := (process_line (process_line initial line1).2 line2).2 in
  event_of line1 = Some (Tone, 7, "CW_DEBUG_EVENT_TONE_HIGH")
  ∧ event_of line2 = Some (Tone, 7, "CW_DEBUG_EVENT_TONE_MID")
  ∧ read_loop [line1; line2] initial = (Ret (), g')
  ∧ input_events g' !! (7 - 1) = Some "CW_DEBUG_EVENT_TONE_HIGH"
  ∧ input_events g' !! 7 = Some "CW_DEBUG_EVENT_TONE_MID"
  ∧ previous Tone g' = "CW_DEBUG_EVENT_TONE_MID".
Proof.
  do 2 (split; [reflexivity |]).
  apply (repeated_time_flattens_step initial
           (event_line "7" "CW_DEBUG_EVENT_TONE_HIGH")
           (event_line "7" "CW_DEBUG_EVENT_TONE_MID")
           Tone 7 "CW_DEBUG_EVENT_TONE_HIGH" "CW_DEBUG_EVENT_TONE_MID");
    reflexivity.
Defined.

(** ** The equations of a cell and of a row *)

Lemma cell_eq (c : category) (time : Z) (g : globals) (v : string) :
  input_events g !! time = Some v →
  cell c time g =
    match event_values !! shown c v (previous c g) with
    | Some text => (Ret (), after_cell c (shown c v (previous c g)) text g)
    | None => (Raise (KeyError (KStr (shown c v (previous c g)))), g)
    end.
Proof.
  intros Hv. unfold shown.
  destruct c; unfold cell, tone_cell, tq_cell, bind, input_event, event_value,
    gets, print, set_tone_event_previous, set_tq_event_previous, after_cell;
    simpl; rewrite Hv.
  - destruct (re_match "CW_DEBUG_EVENT_TONE" v).
    + by destruct (event_values !! v).
    + by destruct (event_values !! tone_event_previous g).
  - destruct (re_match "CW_DEBUG_EVENT_TQ" v).
    + by destruct (event_values !! v).
    + by destruct (event_values !! tq_event_previous g).
Qed.

Lemma column_same_table (c : category) (time : Z) (g : globals) :
  same_table g (column c time g).2.
Proof.
  unfold column. destruct (present c g); [|apply same_table_refl].
  pose proof (match c return cell_outcome g (cell c time g) with
              | Tone => tone_cell_outcome time g
              | TQ => tq_cell_outcome time g
              end) as H.
  destruct (cell c time g) as [r g1]. inversion H; subst; [done |].
  apply same_table_refl.
Qed.

(** A row is its time, the Tone column, the TQ column and a newline; the
    flags read along the way are those the row started with. *)
Lemma print_row_eq (time : Z) (g : globals) :
  in_range time →
  print_row time g =
    match column Tone time (print (str time) g).2 with
    | (Raise e, g1) => (Raise e, g1)
    | (Ret _, g1) =>
        match column TQ time g1 with
        | (Raise e, g2) => (Raise e, g2)
        | (Ret _, g2) => print nl g2
        end
    end.
Proof.
  intros Hr. unfold print_row. rewrite (print_int_in_range time Hr).
  rewrite (bind_Ret (print (str time)) _ g (print (str time) g).2 () eq_refl).
  unfold bind at 1. rewrite guarded_cell.
  change (if tone_event_present (print (str time) g).2
          then tone_cell time (print (str time) g).2
          else (Ret (), (print (str time) g).2))
    with (column Tone time (print (str time) g).2).
  destruct (column Tone time (print (str time) g).2) as [[[]|e] g1]; [|done].
  unfold bind at 1. rewrite guarded_cell.
  change (if tq_event_present g1 then tq_cell time g1 else (Ret (), g1))
    with (column TQ time g1).
  by destruct (column TQ time g1) as [[[]|e] g2].
Qed.

Lemma code_Some (v text : string) : event_values !! v = Some text → code v = text.
Proof. intros H. unfold code. by rewrite H. Qed.

(** A row that is written in full has a time of at most 4300 digits. *)
Lemma print_row_Ret_in_range (time : Z) (g g' : globals) :
  print_row time g = (Ret (), g') → in_range time.
Proof.
  unfold print_row. destruct (print_int_cases time g) as [[_ E] | E].
  - by rewrite (bind_Raise _ _ _ _ _ E).
  - intros _. unfold print_int in E. unfold in_range.
    by destruct (too_long (str (Z.abs time))).
Qed.

(** What a row that is written in full leaves behind. *)
Lemma print_row_Ret (time : Z) (g g' : globals) (v : string) :
  input_events g !! time = Some v →
  print_row time g = (Ret (), g') →
  same_table g g'
  ∧ (∀ c, previous c g' =
          if present c g then shown c v (previous c g) else previous c g)
  ∧ stdout g' =
      stdout g +:+ row_text
        (str time
         :: (if tone_event_present g
             then [code (shown Tone v (tone_event_previous g))] else [])
         ++ (if tq_event_present g
             then [code (shown TQ v (tq_event_previous g))] else [])).
Proof.
  intros Hv Hrow. pose proof (print_row_Ret_in_range time g g' Hrow) as Hr.
  revert Hrow. rewrite (print_row_eq time g Hr). unfold column.
  set (g0 := (print (str time) g).2).
  change (present Tone g0) with (tone_event_present g).
  assert (Hv0 : input_events g0 !! time = Some v) by done.
  destruct (tone_event_present g) eqn:Ht.
  - rewrite (cell_eq Tone time g0 v Hv0).
    change (previous Tone g0) with (tone_event_previous g).
    destruct (event_values !! shown Tone v (tone_event_previous g))
      as [t1|] eqn:E1; [|done].
    set (g1 := after_cell Tone _ t1 g0).
    change (present TQ g1) with (tq_event_present g).
    assert (Hv1 : input_events g1 !! time = Some v) by done.
    destruct (tq_event_present g) eqn:Hq.
    + rewrite (cell_eq TQ time g1 v Hv1).
      change (previous TQ g1) with (tq_event_previous g).
      destruct (event_values !! shown TQ v (tq_event_previous g))
        as [t2|] eqn:E2; [|done].
      intros [= <-]. split_and!.
      * by repeat split.
      * intros []; simpl; by rewrite ?Ht, ?Hq.
      * simpl. rewrite (code_Some _ _ E1), (code_Some _ _ E2).
        unfold row_text. simpl. by rewrite !append_assoc.
    + intros [= <-]. split_and!.
      * by repeat split.
      * intros []; simpl; by rewrite ?Ht, ?Hq.
      * simpl. rewrite (code_Some _ _ E1).
        unfold row_text. simpl. by rewrite !append_assoc.
  - change (present TQ g0) with (tq_event_present g).
    destruct (tq_event_present g) eqn:Hq.
    + rewrite (cell_eq TQ time g0 v Hv0).
      change (previous TQ g0) with (tq_event_previous g).
      destruct (event_values !! shown TQ v (tq_event_previous g))
        as [t2|] eqn:E2; [|done].
      intros [= <-]. split_and!.
      * by repeat split.
      * intros []; simpl; by rewrite ?Ht, ?Hq.
      * simpl. rewrite (code_Some _ _ E2).
        unfold row_text. simpl. by rewrite !append_assoc.
    + intros [= <-]. split_and!.
      * by repeat split.
      * intros []; simpl; by rewrite ?Ht, ?Hq.
      * simpl. unfold row_text. simpl. by rewrite !append_assoc.
Qed.

(** ** Forward fill *)

Lemma latest_snoc (c : category) (start : string) (seen : list string) (v : string) :
  latest c start (seen ++ [v]) = shown c v (latest c start seen).
Proof. unfold latest, shown. by rewrite foldl_app. Qed.

(** The loop invariant of the printing pass: the cursor of a column that is
    switched on is the latest entry of its category among the rows already
    printed. *)
Lemma for_each_expected (ks : list Z) (g : globals) (seen : list string) :
  Forall (λ k, is_Some (input_events g !! k)) ks →
  (∀ c, present c g = true → previous c g = latest c (restored c) seen) →
  (for_each print_row ks g).1 = Ret () →
  stdout (for_each print_row ks g).2 =
    stdout g +:+ table_text
      (expected_rows (input_events g) (tone_event_present g)
         (tq_event_present g) seen ks).
Proof.
  revert g seen. induction ks as [|k ks IH]; intros g seen Hks Hcur Hret.
  - simpl. by rewrite append_nil_r.
  - apply Forall_cons in Hks as [[v Hv] Hks].
    change (for_each print_row (k :: ks) g)
      with ((print_row k >> for_each print_row ks) g) in *.
    destruct (print_row k g) as [[[]|e] g1] eqn:E.
    2:{ by rewrite (bind_Raise _ _ _ _ _ E) in Hret. }
    rewrite (bind_Ret _ _ _ _ _ E) in Hret |- *.
    destruct (print_row_Ret k g g1 v Hv E) as ((T1 & A1 & B1 & _) & Hprev & S1).
    rewrite (IH g1 (seen ++ [v])); [| by rewrite T1 | | done].
    + rewrite S1, T1, A1, B1, append_assoc. f_equal.
      change (expected_rows (input_events g) (tone_event_present g)
                (tq_event_present g) seen (k :: ks))
        with ((str k
               :: (if tone_event_present g
                   then [code (latest Tone (restored Tone)
                                 (seen ++ [entry_at (input_events g) k]))]
                   else [])
               ++ (if tq_event_present g
                   then [code (latest TQ (restored TQ)
                                 (seen ++ [entry_at (input_events g) k]))]
                   else []))
              :: expected_rows (input_events g) (tone_event_present g)
                   (tq_event_present g)
                   (seen ++ [entry_at (input_events g) k]) ks).
      unfold entry_at. rewrite Hv. simpl default. rewrite !latest_snoc.
      change (table_text (?r :: ?rs)) with (row_text r +:+ table_text rs).
      do 2 f_equal.
      pose proof (Hcur Tone) as HT. pose proof (Hcur TQ) as HQ. simpl in HT, HQ.
      destruct (tone_event_present g), (tq_event_present g);
        try rewrite (HT eq_refl); try rewrite (HQ eq_refl); done.
    + intros c Hc. rewrite Hprev, latest_snoc.
      assert (Hc' : present c g = true).
      { destruct c; simpl in *; congruence. }
      by rewrite Hc', (Hcur c Hc').
Qed.

Lemma code_clean (v : string) : clean (code v) = true.
Proof.
  unfold code. destruct (event_values !! v) eqn:E; [|done].
  by eapply event_values_clean.
Qed.

Lemma expected_rows_clean (m : gmap Z string) (tone tq : bool)
    (seen : list string) (ks : list Z) :
  Forall (λ row, Forall (λ c, clean c = true) row ∧ row ≠ [])
    (expected_rows m tone tq seen ks).
Proof.
  revert seen. induction ks as [|k ks IH]; intros seen; [constructor |].
  constructor; [|apply IH]. split; [|done].
  constructor; [apply str_clean |]. apply Forall_app.
  destruct tone, tq; repeat constructor; apply code_clean.
Qed.

Lemma sorted_keys_present (m : gmap Z string) :
  Forall (λ k, is_Some (m !! k)) (sorted (keys m)).
Proof.
  apply Forall_forall. intros k Hk.
  rewrite (proj2 (sorted_spec (keys m))) in Hk. by apply elem_of_keys.
Qed.

(** The table a normal run prints, read back. *)
Lemma main_expected_rows (lines : list string) :
  (main lines).1 = Ret () →
  let g := (read_loop lines initial).2 in
  rows_written (stdout (main lines).2) =
    header_cells g
    :: expected_rows (input_events g) (tone_event_present g)
         (tq_event_present g) [] (sorted (keys (input_events g)))
  ∧ (split_lines (stdout (main lines).2)).2 = "".
Proof.
  intros Hret g. pose proof (main_Ret_times_parse lines Hret) as Hparse.
  rewrite (main_normal lines Hparse) in Hret |- *.
  unfold print_table in *. fold g in Hret |- *.
  rewrite print_table_from_start in Hret |- *.
  rewrite (for_each_expected _ (start_printing g) []);
    [| apply sorted_keys_present | by intros [] | done].
  assert (Hstart : stdout (start_printing g) = row_text (header_cells g)).
  { simpl. unfold g. by rewrite read_loop_stdout. }
  rewrite Hstart.
  change (input_events (start_printing g)) with (input_events g).
  change (tone_event_present (start_printing g)) with (tone_event_present g).
  change (tq_event_present (start_printing g)) with (tq_event_present g).
  set (rows := expected_rows _ _ _ _ _).
  change (row_text (header_cells g) +:+ table_text rows)
    with (table_text (header_cells g :: rows)).
  assert (Hall : Forall (λ row, Forall (λ c, clean c = true) row ∧ row ≠ [])
                   (header_cells g :: rows)).
  { constructor; [split; [apply header_cells_clean | done] |].
    apply expected_rows_clean. }
  rewrite <- (append_nil_r (table_text _)). split.
  - by apply rows_written_table.
  - rewrite split_lines_table; [done | | done].
    eapply Forall_impl; [exact Hall | by intros row [H _]].
Qed.

(** X6.  Forward fill.  When the run ends normally its output is, line for
    line, the header and one row per key of the dictionary in ascending
    order; the cell of each column that is switched on is the plot code of
    the latest entry of that category among the entries up to and including
    the row, or of the label the cursor was restored to when there is none
    yet. *)
Theorem forward_fill (lines : list string) :
  (main lines).1 = Ret () →
  let g := (read_loop lines initial).2 in
  rows_written (stdout (main lines).2) =
    header_cells g
    :: expected_rows (input_events g) (tone_event_present g)
         (tq_event_present g) [] (sorted (keys (input_events g)))
  ∧ (split_lines (stdout (main lines).2)).2 = "".
Proof. exact (main_expected_rows lines). Qed.

Lemma forward_fill_witness :
  let g := (read_loop two_tones initial).2 in
  (main two_tones).1 = Ret ()
  ∧ rows_written (stdout (main two_tones).2) =
      header_cells g
      :: expected_rows (input_events g) (tone_event_present g)
           (tq_event_present g) [] (sorted (keys (input_events g)))
  ∧ (split_lines (stdout (main two_tones).2)).2 = "".
Proof. split; [reflexivity | exact (forward_fill two_tones eq_refl)]. Defined.

(** ** One row per key, in ascending order *)

Lemma expected_rows_heads (m : gmap Z string) (tone tq : bool)
    (seen : list string) (ks : list Z) :
  head <$> expected_rows m tone tq seen ks = (λ k, Some (str k)) <$> ks.
Proof.
  revert seen. induction ks as [|k ks IH]; intros seen; [done |].
  simpl. by rewrite IH.
Qed.

Lemma StronglySorted_le_lt (l : list Z) :
  StronglySorted Z.le l → NoDup l → StronglySorted Z.lt l.
Proof.
  induction 1 as [|k l Hs IH Hk]; intros Hnd; [constructor |].
  apply NoDup_cons in Hnd as [Hnotin Hnd].
  constructor; [by apply IH |].
  apply Forall_forall. intros x Hx.
  rewrite Forall_forall in Hk. specialize (Hk x Hx).
  assert (k ≠ x) by (by intros ->). lia.
Qed.

Lemma sorted_keys_strict (m : gmap Z string) :
  StronglySorted Z.lt (sorted (keys m)).
Proof.
  destruct (sorted_spec (keys m)) as [Hs Hp].
  apply StronglySorted_le_lt; [done |].
  rewrite Hp. apply NoDup_fst_map_to_list.
Qed.

(** X7.  When the run ends normally, the time fields of the data rows are
    the keys of the dictionary, each once, in strictly ascending order:
    one row per distinct time that received a write. *)
Theorem rows_in_time_order (lines : list string) :
  (main lines).1 = Ret () →
  let g := (read_loop lines initial).2 in
  let ks := sorted (keys (input_events g)) in
  (∃ data, rows_written (stdout (main lines).2) = header_cells g :: data
           ∧ head <$> data = (λ k, Some (str k)) <$> ks)
  ∧ StronglySorted Z.lt ks
  ∧ ∀ k, k ∈ ks ↔ is_Some (input_events g !! k).
Proof.
  intros Hret g ks. split_and!.
  - destruct (main_expected_rows lines Hret) as [Hrows _].
    eexists. split; [exact Hrows | apply expected_rows_heads].
  - apply sorted_keys_strict.
  - intros k. unfold ks. rewrite (proj2 (sorted_spec _)). apply elem_of_keys.
Qed.

Lemma rows_in_time_order_witness :
  let g := (read_loop two_tones initial).2 in
  let ks := sorted (keys (input_events g)) in
  (main two_tones).1 = Ret ()
  ∧ (∃ data, rows_written (stdout (main two_tones).2) = header_cells g :: data
             ∧ head <$> data = (λ k, Some (str k)) <$> ks)
  ∧ StronglySorted Z.lt ks
  ∧ ∀ k, k ∈ ks ↔ is_Some (input_events g !! k).
Proof. split; [reflexivity | exact (rows_in_time_order two_tones eq_refl)]. Defined.

(** ** When the printing pass ends normally *)

Lemma read_loop_all_known (lines : list string) (g : globals) :
  known_variants lines → all_known g → all_known (read_loop lines g).2.
Proof.
  revert g. induction lines as [|line lines IH]; intros g Hknown Hg; [done |].
  rewrite read_loop_cons. apply Forall_cons in Hknown as [Hline Hknown].
  assert (Hstep : all_known (process_line g line).2).
  { destruct Hg as (Htable & Ht & Hq).
    destruct (event_of_None_or_Some line) as [Hn | (c & t & v & He)].
    - destruct (process_line_no_event g line Hn) as (E1 & E2 & E3 & _).
      split_and!; [by rewrite E1 | by rewrite E2 | by rewrite E3].
    - specialize (Hline c t v He).
      destruct (process_line_event g line c t v He)
        as (E1 & _ & E3 & _ & E5 & _).
      split_and!.
      + intros k w. rewrite E1, !lookup_insert_Some.
        intros [[_ <-] | [_ [[_ <-] | [_ Hold]]]]; [done | | by eapply Htable].
        by destruct c.
      + destruct c; simpl in *; [by rewrite E3 | by rewrite E5].
      + destruct c; simpl in *; [by rewrite E5 | by rewrite E3]. }
  destruct (process_line g line) as [[[]|e] g']; [by apply IH | done].
Qed.

Lemma initial_all_known : all_known initial.
Proof.
  split_and!; [| by eexists | by eexists].
  intros k v H. simpl in H. by rewrite lookup_empty in H.
Qed.

(** A row whose cells can all be looked up is written. *)
Lemma print_row_succeeds (time : Z) (g : globals) (v : string) :
  input_events g !! time = Some v →
  (tone_event_present g = true → known (shown Tone v (tone_event_previous g))) →
  (tq_event_present g = true → known (shown TQ v (tq_event_previous g))) →
  in_range time →
  ∃ g', print_row time g = (Ret (), g').
Proof.
  intros Hv Ht Hq Hr. rewrite (print_row_eq time g Hr). unfold column.
  set (g0 := (print (str time) g).2).
  change (present Tone g0) with (tone_event_present g).
  assert (Hv0 : input_events g0 !! time = Some v) by done.
  assert (Hq1 : ∀ g1, input_events g1 !! time = Some v →
            tq_event_present g1 = tq_event_present g →
            tq_event_previous g1 = tq_event_previous g →
            ∃ g', match (if present TQ g1 then cell TQ time g1 else (Ret (), g1))
                  with
                  | (Ret _, g2) => print nl g2
                  | (Raise e, g2) => (Raise e, g2)
                  end = (Ret (), g')).
  { intros g1 Hv1 B1 P1.
    change (present TQ g1) with (tq_event_present g1). rewrite B1.
    destruct (tq_event_present g); [|by eexists].
    rewrite (cell_eq TQ time g1 v Hv1).
    change (previous TQ g1) with (tq_event_previous g1). rewrite P1.
    destruct (Hq eq_refl) as [t2 ->]. by eexists. }
  destruct (tone_event_present g).
  - rewrite (cell_eq Tone time g0 v Hv0).
    change (previous Tone g0) with (tone_event_previous g).
    destruct (Ht eq_refl) as [t1 ->]. by apply Hq1.
  - by apply Hq1.
Qed.

Lemma shown_known (c : category) (v cursor : string) :
  known v → known cursor → known (shown c v cursor).
Proof. unfold shown. by destruct (re_match _ v). Qed.

Lemma for_each_printable (ks : list Z) (g : globals) :
  printable g →
  Forall (λ k, is_Some (input_events g !! k) ∧ in_range k) ks →
  (for_each print_row ks g).1 = Ret ().
Proof.
  revert g. induction ks as [|k ks IH]; intros g (Htable & Ht & Hq) Hks; [done |].
  apply Forall_cons in Hks as [[[v Hv] Hr] Hks].
  pose proof (Htable k v Hv) as Hkv.
  destruct (print_row_succeeds k g v Hv) as [g1 E]; [| | done |].
  { intros _. by apply shown_known. }
  { intros H. apply shown_known; [done | by apply Hq]. }
  change (for_each print_row (k :: ks) g)
    with ((print_row k >> for_each print_row ks) g).
  rewrite (bind_Ret _ _ _ _ _ E).
  destruct (print_row_Ret k g g1 v Hv E) as ((T1 & A1 & B1 & _) & Hprev & _).
  apply IH; [|by rewrite T1]. split_and!.
  - by rewrite T1.
  - pose proof (Hprev Tone) as HT. simpl in HT. rewrite HT.
    destruct (tone_event_present g); [by apply shown_known | done].
  - rewrite B1. intros H. pose proof (Hprev TQ) as HQ. simpl in HQ.
    rewrite HQ, H. apply shown_known; [done | by apply Hq].
Qed.

Lemma occurs_classified (c : category) (lines : list string) :
  occurs c lines ↔
  ∃ line group1 group2,
    line ∈ lines ∧ classified line = Some (c, group1, group2).
Proof.
  unfold occurs, categories. rewrite list_elem_of_omap. split.
  - intros (line & Hin & He).
    destruct (classified line) as [[[c' t] v]|] eqn:E; [|done].
    simpl in He. injection He as ->. by exists line, t, v.
  - intros (line & t & v & Hin & He). exists line. by rewrite He.
Qed.

Lemma times_parse_classified
    (lines : list string) (line : string) (c : category) (group1 group2 : string) :
  times_parse lines → line ∈ lines →
  classified line = Some (c, group1, group2) →
  event_of line = Some (c, int_value group1, group2).
Proof.
  intros Hp Hin Hc. unfold times_parse in Hp. rewrite Forall_forall in Hp.
  specialize (Hp line Hin). unfold event_of. rewrite Hc in Hp |- *.
  by rewrite Hp.
Qed.

(** When every time can be converted, a category occurs exactly when a
    line carries an event of it. *)
Lemma occurs_event (c : category) (lines : list string) :
  times_parse lines →
  occurs c lines ↔
  ∃ line t v, line ∈ lines ∧ event_of line = Some (c, t, v).
Proof.
  intros Hp. rewrite occurs_classified. split.
  - intros (line & d & v & Hin & Hc). exists line, (int_value d), v.
    split; [done | by eapply times_parse_classified].
  - intros (line & t & v & Hin & (d & Hc & _)%event_of_classified).
    by exists line, d, v.
Qed.

(** The rows of the table of a run: every key has an entry and a time that
    can be printed. *)
Lemma read_loop_sorted_keys (lines : list string) :
  let g := (read_loop lines initial).2 in
  Forall (λ k, is_Some (input_events g !! k) ∧ in_range k)
    (sorted (keys (input_events g))).
Proof.
  intros g. apply Forall_forall. intros k Hk.
  rewrite (proj2 (sorted_spec _)) in Hk. apply elem_of_keys in Hk.
  split; [done | by apply (read_loop_in_range lines)].
Qed.

(** X8.  A time of more than 4300 digits in a line that reaches an event
    branch ends the script with [ValueError] before anything is printed.
    Otherwise, when every event of the input carries one of the six names,
    the only thing that can go wrong is the TQ cursor: the run ends
    normally exactly when no TQ event occurs or the entry of the first row
    (the smallest key) is a TQ event, and otherwise it raises [KeyError] on
    the label the TQ cursor was restored to. *)
Theorem run_result (lines : list string) :
  known_variants lines →
  let g := (read_loop lines initial).2 in
  (¬ times_parse lines →
   (main lines).1 = Raise ValueError ∧ stdout (main lines).2 = "")
  ∧ (times_parse lines →
     ((main lines).1 = Ret () ↔
      (occurs TQ lines →
       ∃ v, first_entry g = Some v ∧ re_match "CW_DEBUG_EVENT_TQ" v = true))
     ∧ ((main lines).1 = Ret ()
        ∨ (main lines).1
          = Raise (KeyError (KStr "CW_DEBUG_EVENT_TQ_STILL_NEMPTY")))).
Proof.
  intros Hknown g. split.
  { intros Hn. rewrite (main_raises lines Hn). split; [done |].
    exact (read_loop_stdout lines initial). }
  intros Hparse.
  destruct (read_loop_all_known lines initial Hknown initial_all_known)
    as (Htable & _ & _). fold g in Htable.
  pose proof (read_loop_sorted_keys lines) as Hkeys. simpl in Hkeys.
  fold g in Hkeys.
  rewrite (main_normal lines Hparse).
  unfold print_table. fold g. rewrite print_table_from_start.
  destruct (decide (occurs TQ lines)) as [Hq | Hq].
  - pose proof (read_loop_present TQ lines initial Hparse Hq) as Hflag.
    simpl in Hflag.
    apply (occurs_event TQ lines Hparse) in Hq as Hev.
    destruct Hev as (line & t & w & Hin & He).
    pose proof (read_loop_event_slot lines line TQ t w initial Hparse Hin He)
      as Hslot.
    fold g in Hslot, Hflag. apply elem_of_keys in Hslot.
    destruct (sorted_head_le _ _ Hslot) as (k & tl & Hs & Hk & _).
    apply elem_of_keys in Hk as [v Hv].
    assert (Hfirst : first_entry g = Some v).
    { unfold first_entry, entry_at. rewrite Hs. simpl. by rewrite Hv. }
    rewrite Hfirst, Hs. rewrite Hs in Hkeys.
    apply Forall_cons in Hkeys as [[_ Hr] Hkeys].
    change (for_each print_row (k :: tl) (start_printing g))
      with ((print_row k >> for_each print_row tl) (start_printing g)).
    destruct (re_match "CW_DEBUG_EVENT_TQ" v) eqn:Hm.
    + destruct (print_row_succeeds k (start_printing g) v Hv) as [g1 E];
        [| | done |].
      { intros _. apply shown_known; [by eapply Htable | by eexists]. }
      { intros _. unfold shown. simpl. rewrite Hm. by eapply Htable. }
      rewrite (bind_Ret _ _ _ _ _ E).
      destruct (print_row_Ret k (start_printing g) g1 v Hv E)
        as ((T1 & A1 & B1 & _) & Hprev & _).
      simpl in T1, A1, B1.
      assert (Hret : (for_each print_row tl g1).1 = Ret ()).
      { apply for_each_printable.
        - split_and!.
          + rewrite T1. apply Htable.
          + pose proof (Hprev Tone) as HT. simpl in HT. rewrite HT.
            destruct (tone_event_present g); [|by eexists].
            apply shown_known; [by eapply Htable | by eexists].
          + intros _. pose proof (Hprev TQ) as HQ. simpl in HQ.
            rewrite HQ, Hflag. unfold shown. simpl prefix_of. rewrite Hm.
            by eapply Htable.
        - eapply Forall_impl; [exact Hkeys |]. intros k' [Hk' Hr'].
          by rewrite T1. }
      split; [|by left]. split; [eauto | done].
    + assert (E : ∃ g1, print_row k (start_printing g) =
                (Raise (KeyError (KStr "CW_DEBUG_EVENT_TQ_STILL_NEMPTY")), g1)).
      { rewrite (print_row_eq _ _ Hr). unfold column.
        set (g0 := (print (str k) (start_printing g)).2).
        assert (Hv0 : input_events g0 !! k = Some v) by done.
        assert (Hq1 : ∀ g1, input_events g1 !! k = Some v →
                  tq_event_present g1 = true →
                  tq_event_previous g1 = "CW_DEBUG_EVENT_TQ_STILL_NEMPTY" →
                  ∃ g2, match (if present TQ g1 then cell TQ k g1
                               else (Ret (), g1)) with
                        | (Ret _, g2) => print nl g2
                        | (Raise e, g2) => (Raise e, g2)
                        end
                        = (Raise (KeyError
                                    (KStr "CW_DEBUG_EVENT_TQ_STILL_NEMPTY")), g2)).
        { intros g1 Hv1 B1 P1.
          change (present TQ g1) with (tq_event_present g1).
          rewrite B1, (cell_eq TQ k g1 v Hv1).
          change (previous TQ g1) with (tq_event_previous g1).
          unfold shown. simpl prefix_of. rewrite Hm, P1. by eexists. }
        change (present Tone g0) with (tone_event_present g).
        destruct (tone_event_present g); [|by apply Hq1].
        rewrite (cell_eq Tone k g0 v Hv0).
        destruct (shown_known Tone v (previous Tone g0)) as [t1 ->];
          [by eapply Htable | by eexists |].
        by apply Hq1. }
      destruct E as [g1 E]. rewrite (bind_Raise _ _ _ _ _ E).
      split; [|by right]. split; [done |].
      intros H. destruct (H Hq) as (v' & [= <-] & Hm'). congruence.
  - pose proof (proj1 (read_loop_absent TQ lines initial Hq)) as Hflag.
    fold g in Hflag. simpl in Hflag.
    assert (Hret : (for_each print_row (sorted (keys (input_events g)))
                      (start_printing g)).1 = Ret ()).
    { apply for_each_printable; [|exact Hkeys].
      split_and!; [done | by eexists |]. simpl. by rewrite Hflag. }
    split; [|by left]. split; [by intros _ ? | done].
Qed.

Lemma run_result_witness :
  known_variants tq_then_tone
  ∧ times_parse tq_then_tone
  ∧ (main tq_then_tone).1 = Ret ()
  ∧ first_entry (read_loop tq_then_tone initial).2
    = Some "CW_DEBUG_EVENT_TQ_STILL_EMPTY".
Proof.
  assert (Hknown : known_variants tq_then_tone).
  { repeat constructor; intros c t v [= <- <- <-]; by eexists. }
  assert (Hparse : times_parse tq_then_tone).
  { apply (bool_decide_unpack _). by vm_compute. }
  split; [exact Hknown |]. split; [exact Hparse |]. split; [|reflexivity].
  apply (proj1 (proj2 (run_result tq_then_tone Hknown) Hparse)).
  intros _. by exists "CW_DEBUG_EVENT_TQ_STILL_EMPTY".
Defined.

(** ** The printing pass does not look at the error stream *)

Create HintDb blind.

Lemma blind_ret {A} (a : A) : blind (ret a).
Proof. by intros e g. Qed.

Lemma blind_bind {A B} (m : M A) (k : A → M B) :
  blind m → (∀ a, blind (k a)) → blind (bind m k).
Proof.
  intros Hm Hk e g. unfold bind. rewrite (Hm e g).
  destruct (m g) as [[a|x] g1]; simpl; [apply Hk | done].
Qed.

Lemma blind_gets {A} (f : globals → A) :
  (∀ e g, f (set_stderr e g) = f g) → blind (gets f).
Proof. intros Hf e g. unfold gets. simpl. by rewrite Hf. Qed.

Lemma blind_print (text : string) : blind (print text).
Proof. by intros e g. Qed.

Lemma blind_raise {A} (x : exn) : blind (@raise A x).
Proof. by intros e g. Qed.

Lemma blind_print_int (n : Z) : blind (print_int n).
Proof.
  unfold print_int. destruct (too_long _); [apply blind_raise | apply blind_print].
Qed.

Lemma blind_set_tone_event_previous (v : string) :
  blind (set_tone_event_previous v).
Proof. by intros e g. Qed.

Lemma blind_set_tq_event_previous (v : string) :
  blind (set_tq_event_previous v).
Proof. by intros e g. Qed.

Lemma blind_event_value (k : string) : blind (event_value k).
Proof. intros e g. unfold event_value. by destruct (event_values !! k). Qed.

Lemma blind_input_event (time : Z) : blind (input_event time).
Proof.
  intros e g. unfold input_event. simpl. by destruct (input_events g !! time).
Qed.

Lemma blind_when (b : bool) (m : M unit) : blind m → blind (when b m).
Proof. intros Hm. destruct b; [done | apply blind_ret]. Qed.

Lemma blind_if {A} (b : bool) (m1 m2 : M A) :
  blind m1 → blind m2 → blind (if b then m1 else m2).
Proof. by destruct b. Qed.

Lemma blind_for_each {A} (body : A → M unit) (l : list A) :
  (∀ x, blind (body x)) → blind (for_each body l).
Proof.
  intros Hb. induction l as [|x l IH]; [apply blind_ret |].
  apply blind_bind; [apply Hb | done].
Qed.

#[local] Hint Resolve blind_ret blind_bind blind_gets blind_print
  blind_raise blind_print_int
  blind_set_tone_event_previous blind_set_tq_event_previous
  blind_event_value blind_input_event blind_when blind_if
  blind_for_each : blind.

(** Goes down the binds of a computation and closes the leaves. *)
Ltac solve_blind :=
  repeat match goal with
         | |- ∀ _, _ => intro
         | |- blind (bind _ _) => apply blind_bind
         | |- blind (when _ _) => apply blind_when
         | |- blind (if _ then _ else _) => apply blind_if
         | |- blind (gets _) => apply blind_gets
         | |- blind (for_each _ _) => apply blind_for_each
         | |- blind _ => solve [auto with blind]
         | |- _ = _ => reflexivity
         end.

Lemma blind_print_row (time : Z) : blind (print_row time).
Proof. unfold print_row, tone_cell, tq_cell. solve_blind. Qed.

Lemma blind_print_table_from (ks : list Z) : blind (print_table_from ks).
Proof.
  unfold print_table_from, print_header. solve_blind. apply blind_print_row.
Qed.

(** ** Lines without an event do not show in the output *)

Lemma collision_blind (key : Z) (msg : string) (e : list string) (g : globals) :
  ∃ e', collision key msg (set_stderr e g) = set_stderr e' (collision key msg g).
Proof. unfold collision. simpl. case_decide; by eexists. Qed.

(** The reading loop reads the error stream nowhere: a line ends the same
    way and does the same to the other variables whatever the stream
    holds. *)
Lemma process_line_blind (e : list string) (g : globals) (line : string) :
  ∃ e', process_line (set_stderr e g) line
        = ((process_line g line).1, set_stderr e' (process_line g line).2).
Proof.
  destruct (line_cases line)
    as [Hu | [(c & t & v & He) | (c & d & v & Hc & Hd)]].
  - destruct (process_line_unclassified g line Hu) as [e1 ->].
    destruct (process_line_unclassified (set_stderr e g) line Hu) as [e2 ->].
    by exists e2.
  - rewrite !(process_line_event_Ret _ line c t v He). cbn [fst snd].
    destruct c; cbn [set_present]; unfold tone_branch, tq_branch.
    + change (set_tone_event_present (set_stderr e g))
        with (set_stderr e (set_tone_event_present g)).
      destruct (collision_blind t "Tone collision 1" e
                  (set_tone_event_present g)) as [e1 ->].
      destruct (collision_blind (t - 1) "Tone collision 2" e1
                  (collision t "Tone collision 1" (set_tone_event_present g)))
        as [e2 ->].
      by eexists.
    + change (set_tq_event_present (set_stderr e g))
        with (set_stderr e (set_tq_event_present g)).
      destruct (collision_blind t "TQ collision 1" e
                  (set_tq_event_present g)) as [e1 ->].
      destruct (collision_blind (t - 1) "TQ collision 2" e1
                  (collision t "TQ collision 1" (set_tq_event_present g)))
        as [e2 ->].
      by eexists.
  - rewrite !(process_line_overlong _ line c d v Hc Hd). exists e.
    by destruct c.
Qed.

Lemma read_loop_events_only (lines : list string) (e : list string) (g : globals) :
  ∃ e', read_loop lines (set_stderr e g)
        = ((read_loop (events_only lines) g).1,
           set_stderr e' (read_loop (events_only lines) g).2).
Proof.
  revert e g. induction lines as [|line lines IH]; intros e g; [by eexists |].
  rewrite read_loop_cons. unfold events_only.
  destruct (classified line) as [x|] eqn:Hc.
  - rewrite filter_cons_True by (rewrite Hc; eauto). rewrite read_loop_cons.
    destruct (process_line_blind e g line) as [e1 ->].
    destruct (process_line g line) as [[[]|x'] g1]; cbn [fst snd];
      [apply IH | by eexists].
  - rewrite filter_cons_False by (rewrite Hc; by intros [? ?]).
    destruct (process_line_unclassified (set_stderr e g) line Hc) as [e1 ->].
    change (set_stderr e1 (set_stderr e g)) with (set_stderr e1 g). apply IH.
Qed.

(** X9.  Lines that carry no event (log noise, and matching lines with an
    unknown token) leave no trace outside the error stream: the run on the
    whole input and the run on its event lines alone build the same
    dictionary and end with the same result and the same standard
    output. *)
Theorem output_ignores_other_lines (lines : list string) :
  input_events (read_loop lines initial).2
    = input_events (read_loop (events_only lines) initial).2
  ∧ (main lines).1 = (main (events_only lines)).1
  ∧ stdout (main lines).2 = stdout (main (events_only lines)).2.
Proof.
  destruct (read_loop_events_only lines [] initial) as [e He].
  change (set_stderr [] initial) with initial in He.
  unfold main, bind, print_table. rewrite He.
  destruct (read_loop (events_only lines) initial) as [[[]|x] g];
    cbn [fst snd]; [|done].
  change (input_events (set_stderr e g)) with (input_events g).
  by rewrite (blind_print_table_from _ e).
Qed.

(** ** Times written and read back *)

Lemma int_value_str (n : Z) : 0 ≤ n → int_value (str n) = n.
Proof.
  intros (d & Hd & -> & <-)%str_nonneg. apply int_acc_zero_uint.
Qed.

(** X10.  A time that is not negative and has at most 4300 digits starts
    its row as a non-empty run of digits, and [int] reads that text back as
    the same time without raising: the time column of the output can be fed
    to the reading loop again without loss. *)
Theorem int_str (n : Z) (g : globals) :
  0 ≤ n → in_range n →
  (∃ rest, stdout (print_row n g).2 = stdout g +:+ str n +:+ rest)
  ∧ str n ≠ "" ∧ string_forall is_digit (str n) = true
  ∧ int (str n) g = (Ret n, g).
Proof.
  intros Hn Hr. split_and!.
  - destruct (for_each_first_key n [] g Hr) as (rest & Hrest & _).
    exists rest. rewrite <- Hrest. simpl. unfold bind, ret.
    by destruct (print_row n g) as [[[]|e] g'].
  - destruct (str_nonneg n Hn) as (d & Hd & -> & _). by destruct d.
  - destruct (str_nonneg n Hn) as (d & Hd & -> & _). apply uint_digits.
  - unfold int. unfold in_range in Hr. rewrite Z.abs_eq in Hr by done.
    by rewrite Hr, int_value_str.
Qed.

Lemma int_str_witness :
  0 ≤ 1207 ∧ in_range 1207
  ∧ (∃ rest, stdout (print_row 1207 initial).2
             = stdout initial +:+ str 1207 +:+ rest)
  ∧ str 1207 ≠ "" ∧ string_forall is_digit (str 1207) = true
  ∧ int (str 1207) initial = (Ret 1207, initial).
Proof.
  split; [lia |]. split; [reflexivity |].
  apply (int_str 1207 initial); [lia | reflexivity].
Defined.

Lemma classify_nonempty (token : string) (c : category) :
  classify token = Some c → token ≠ "".
Proof. by intros H ->. Qed.

(** X11.  An event line written with a time that is not negative and has
    at most 4300 digits, and a token of a known category that holds neither
    a newline nor a carriage return (so that the line reaches the loop in
    one piece), is read back as that category, that time and that token:
    the loop goes on and files the token at that time. *)
Theorem event_line_read_back
    (n : Z) (token : string) (c : category) (g : globals) :
  0 ≤ n → in_range n →
  classify token = Some c → on_one_line token = true →
  let line := event_line (str n) token in
  event_of line = Some (c, n, token)
  ∧ (process_line g line).1 = Ret ()
  ∧ input_events (process_line g line).2 !! n = Some token.
Proof.
  intros Hn Hr Hc Htok line.
  assert (Hdot : string_forall is_dot token = true).
  { revert Htok. unfold on_one_line. clear.
    induction token as [|ch token IH]; [done |]. simpl.
    intros [[H1 _]%andb_true_iff H2]%andb_true_iff.
    apply andb_true_iff. split; [done | by apply IH]. }
  assert (He : event_of line = Some (c, n, token)).
  { destruct (str_nonneg n Hn) as (d & Hd & Hs & Hv).
    unfold event_of, classified, line, event_line.
    rewrite (line_re_intro (str n) token nl).
    - rewrite Hc. unfold in_range in Hr. rewrite Z.abs_eq in Hr by done.
      by rewrite Hr, int_value_str.
    - rewrite Hs. by destruct d.
    - rewrite Hs. apply uint_digits.
    - by eapply classify_nonempty.
    - done.
    - right. by exists "". }
  split_and!; [done | by rewrite (process_line_event_Ret g line c n token He) |].
  exact (proj1 (process_line_event_keys g line c n token He)).
Qed.

Lemma event_line_read_back_witness :
  let line := event_line (str 90) "CW_DEBUG_EVENT_TQ_JUST_EMPTIED" in
  0 ≤ 90 ∧ in_range 90
  ∧ classify "CW_DEBUG_EVENT_TQ_JUST_EMPTIED" = Some TQ
  ∧ on_one_line "CW_DEBUG_EVENT_TQ_JUST_EMPTIED" = true
  ∧ event_of line = Some (TQ, 90, "CW_DEBUG_EVENT_TQ_JUST_EMPTIED")
  ∧ (process_line initial line).1 = Ret ()
  ∧ input_events (process_line initial line).2 !! 90
    = Some "CW_DEBUG_EVENT_TQ_JUST_EMPTIED".
Proof.
  split; [lia |]. do 3 (split; [reflexivity |]).
  apply (event_line_read_back 90 "CW_DEBUG_EVENT_TQ_JUST_EMPTIED" TQ initial);
    [lia | reflexivity | reflexivity | reflexivity].
Defined.

(** ** Each pass keeps to its own variables *)

(** X12.  The reading loop writes nothing to standard output, and the
    printing pass, whether it ends normally or raises, leaves the
    dictionary, the two presence flags and the error stream as the reading
    loop left them. *)
Theorem passes_keep_apart (lines : list string) :
  stdout (read_loop lines initial).2 = ""
  ∧ same_table (read_loop lines initial).2 (main lines).2.
Proof.
  split; [by rewrite read_loop_stdout |].
  destruct (decide (times_parse lines)) as [Hp | Hn].
  - rewrite (main_normal lines Hp).
    unfold print_table. rewrite print_table_from_start.
    destruct (for_each_row_outcome
                (sorted (keys (input_events (read_loop lines initial).2)))
                (start_printing (read_loop lines initial).2))
      as (_ & _ & _ & _ & _ & T & _).
    eapply same_table_trans; [|exact T]. by repeat split.
  - rewrite (main_raises lines Hn). apply same_table_refl.
Qed.

Lemma present_occurs (c : category) (lines : list string) :
  times_parse lines →
  present c (read_loop lines initial).2 = bool_decide (occurs c lines).
Proof.
  intros Hp. case_bool_decide as H.
  - by apply read_loop_present.
  - rewrite (proj1 (read_loop_absent c lines initial H)). by destruct c.
Qed.

(** X13.  For every input whose times can all be converted, also when the
    printing pass raises later, the first line of the output is the header
    [Time], then [Tone] exactly when a Tone event occurs in the input, then
    [TQ] exactly when a TQ event occurs; every data row written in full
    after it has as many fields.  For any other input the script ends with
    [ValueError] in the reading loop and prints nothing. *)
Theorem header_for_every_input (lines : list string) :
  let header :=
    "Time" :: (if bool_decide (occurs Tone lines) then ["Tone"] else [])
           ++ (if bool_decide (occurs TQ lines) then ["TQ"] else []) in
  (times_parse lines →
   ∃ data, rows_written (stdout (main lines).2) = header :: data
           ∧ Forall (λ row, length row = length header) data)
  ∧ (¬ times_parse lines →
     (main lines).1 = Raise ValueError ∧ stdout (main lines).2 = "").
Proof.
  intros header. split.
  - intros Hp. destruct (main_rows lines Hp) as (data & Hrows & Hwidth & _).
    assert (Hh : header_cells (read_loop lines initial).2 = header).
    { unfold header_cells, header.
      pose proof (present_occurs Tone lines Hp) as HT.
      pose proof (present_occurs TQ lines Hp) as HQ. simpl in HT, HQ.
      by rewrite HT, HQ. }
    rewrite Hh in Hrows, Hwidth. by exists data.
  - intros Hn. rewrite (main_raises lines Hn). split; [done |].
    exact (read_loop_stdout lines initial).
Qed.

Lemma header_for_every_input_witness :
  times_parse tone_then_tq
  ∧ ∃ data,
      rows_written (stdout (main tone_then_tq).2)
      = ["Time"; "Tone"; "TQ"] :: data
      ∧ Forall (λ row, length row = 3%nat) data.
Proof.
  assert (Hp : times_parse tone_then_tq).
  { apply (bool_decide_unpack _). by vm_compute. }
  split; [exact Hp |].
  exact (proj1 (header_for_every_input tone_then_tq) Hp).
Defined.

(** ** The synthesized predecessor *)

Lemma variants_cons (c : category) (line : string) (lines : list string) :
  variants c (line :: lines) =
    match event_of line with
    | Some (c', _, v) =>
        if decide (c' = c) then v :: variants c lines else variants c lines
    | None => variants c lines
    end.
Proof.
  unfold variants. simpl. destruct (event_of line) as [[[c' t] v]|]; [|done].
  by destruct (decide (c' = c)).
Qed.

(** The cursor of a category after a loop that went through the lines is
    the variant of its last event. *)
Lemma read_loop_previous (c : category) (lines : list string) (g : globals) :
  times_parse lines →
  previous c (read_loop lines g).2 = last_variant c (previous c g) lines.
Proof.
  unfold last_variant. revert g.
  induction lines as [|line lines IH]; intros g Hp; [done |].
  destruct (read_loop_cons_normal line lines g Hp) as [_ ->].
  apply times_parse_cons in Hp as [_ Hp].
  rewrite (IH _ Hp), variants_cons.
  destruct (event_of_None_or_Some line) as [Hn | (c' & t & v & He)].
  - rewrite Hn.
    destruct (process_line_no_event g line Hn) as (_ & E2 & E3 & _).
    destruct c; simpl; by rewrite ?E2, ?E3.
  - rewrite He.
    destruct (process_line_event g line c' t v He) as (_ & _ & E3 & _ & E5 & _).
    destruct (decide (c' = c)) as [-> | Hne]; [by rewrite E3 |].
    by rewrite (other_ne c c' Hne), E5.
Qed.

(** X14.  When the loop reaches an event (no line before it has a time of
    more than 4300 digits), the sample the event synthesizes one time unit
    before itself is the variant of the event of the same category that
    comes before it in the input, in the order of the lines and whatever
    its time, or the initial label of the category when it is the first. *)
Theorem predecessor_is_previous_variant
    (before : list string) (line : string) (c : category) (t : Z) (v : string) :
  times_parse before →
  event_of line = Some (c, t, v) →
  let g := (read_loop (before ++ [line]) initial).2 in
  (read_loop (before ++ [line]) initial).1 = Ret ()
  ∧ input_events g !! (t - 1) = Some (last_variant c (previous c initial) before)
  ∧ input_events g !! t = Some v.
Proof.
  intros Hp He g. subst g. rewrite (read_loop_app_normal _ _ _ Hp).
  rewrite read_loop_cons.
  rewrite (process_line_event_Ret _ line c t v He), read_loop_nil.
  rewrite <- (process_line_event_Ret _ line c t v He). cbn [fst snd].
  rewrite (proj1 (process_line_event _ line c t v He)).
  rewrite (read_loop_previous c before initial Hp). split_and!.
  - by rewrite (process_line_event_Ret _ line c t v He).
  - rewrite lookup_insert_ne by lia. by rewrite lookup_insert_eq.
  - by rewrite lookup_insert_eq.
Qed.

Lemma predecessor_is_previous_variant_witness :
  let line := event_line "2" "CW_DEBUG_EVENT_TONE_LOW" in
  let g := (read_loop (two_tones ++ [line]) initial).2 in
  times_parse two_tones
  ∧ event_of line = Some (Tone, 2, "CW_DEBUG_EVENT_TONE_LOW")
  ∧ (read_loop (two_tones ++ [line]) initial).1 = Ret ()
  ∧ input_events g !! (2 - 1) = Some "CW_DEBUG_EVENT_TONE_HIGH"
  ∧ input_events g !! 2 = Some "CW_DEBUG_EVENT_TONE_LOW".
Proof.
  assert (Hp : times_parse two_tones).
  { apply (bool_decide_unpack _). by vm_compute. }
  split; [exact Hp |]. split; [reflexivity |].
  exact (predecessor_is_previous_variant two_tones
           (event_line "2" "CW_DEBUG_EVENT_TONE_LOW") Tone 2
           "CW_DEBUG_EVENT_TONE_LOW" Hp eq_refl).
Defined.

(** ** A time that cannot be converted *)


